(** * openvpn3: the Linux tun client and the SafeString container

    A shallow embedding of [openvpn/buffer/safestr.hpp] and of
    [openvpn/tun/linux/client/tuncli.hpp].  C++ exceptions are results,
    member functions are functions on records, and the collaborators the
    client calls into (parent, persistence store, pump, device setup) are
    recorded in a trace of calls. *)

From Stdlib Require Import ZArith Lia String Ascii.
From stdpp Require Import base option list strings.

Open Scope Z_scope.

(** ** Exceptions *)

(** The outcome of a C++ call that may throw a [std::exception]; [Throw]
    carries [e.what()]. *)
Inductive result (A : Type) : Type :=
| Ok (a : A)
| Throw (what : string).
Arguments Ok {A} a.
Arguments Throw {A} what.

Definition result_bind {A B} (f : A -> result B) (r : result A) : result B :=
  match r with
  | Ok a => f a
  | Throw e => Throw e
  end.

#[global] Instance result_mret : MRet result := @Ok.
#[global] Instance result_mbind : MBind result := @result_bind.

(** ** size_t *)

Definition size_t_bits : Z := 64.
Definition size_t_max : Z := 2 ^ size_t_bits - 1.
Definition size_t (x : Z) : Z := x mod 2 ^ size_t_bits.

(** ** Byte buffers *)

Module BufAllocFlags.
Definition CONSTRUCT_ZERO : Z := Z.shiftl 1 0.
Definition DESTRUCT_ZERO : Z := Z.shiftl 1 1.
Definition GROW : Z := Z.shiftl 1 2.
Definition has (flags flag : Z) : bool := negb (Z.land flags flag =? 0).
End BufAllocFlags.

(** Modelled from the spec: [BufferAllocated] and [buf_to_string]
    ([openvpn/buffer/buffer.hpp], [bufstr.hpp]) are not among the sources.
    The spec calls them generic growable, zeroing byte-buffer primitives;
    the model is a backing array [data_] of [capacity_] bytes of which
    [size_] bytes starting at [offset_] are in use. *)
Record BufferAllocated : Type := mkBuffer {
  data_ : list ascii;
  offset_ : Z;
  size_ : Z;
  capacity_ : Z;
  flags_ : Z
}.

Section Buffer.
(** What freshly allocated, unwritten memory holds at each index. *)
Variable uninit : nat -> ascii.

Definition new_array (from : nat) (capacity : Z) (flags : Z) : list ascii :=
  if BufAllocFlags.has flags BufAllocFlags.CONSTRUCT_ZERO
  then replicate (Z.to_nat capacity) zero
  else uninit <$> seq from (Z.to_nat capacity).

(** Modelled from the spec: the default constructor, an empty buffer
    with no backing array. *)
Definition BufferAllocated_default : BufferAllocated :=
  mkBuffer [] 0 0 0 0.

(** Modelled from the spec: [BufferAllocated(capacity, flags)]. *)
Definition BufferAllocated_ctor (capacity flags : Z) : BufferAllocated :=
  mkBuffer (new_array 0 capacity flags) 0 0 capacity flags.

Definition buf_size (b : BufferAllocated) : Z := size_ b.

Definition buf_remaining (b : BufferAllocated) : Z :=
  capacity_ b - offset_ b - size_ b.

Definition memcpy (dst : list ascii) (pos : Z) (src : list ascii) (n : Z)
  : list ascii :=
  take (Z.to_nat pos) dst ++ take (Z.to_nat n) src
    ++ drop (Z.to_nat (pos + n)) dst.

(** Modelled from the spec: growing is refused without the [GROW] flag;
    with it the bytes in use move into a new backing array, to the same
    offset.  Nothing else is carried over: around them is what the new
    array holds. *)
Definition buf_resize (b : BufferAllocated) (new_capacity : Z)
  : result BufferAllocated :=
  if new_capacity <=? capacity_ b then Ok b
  else if BufAllocFlags.has (flags_ b) BufAllocFlags.GROW
  then Ok (mkBuffer
             (memcpy (new_array 0 new_capacity (flags_ b)) (offset_ b)
                     (drop (Z.to_nat (offset_ b)) (data_ b)) (size_ b))
             (offset_ b) (size_ b) new_capacity (flags_ b))
  else Throw "buffer_full".

(** Modelled from the spec: [write(data, size)] appends [size] bytes
    read from [data], growing the buffer when they do not fit. *)
Definition buf_write (b : BufferAllocated) (src : list ascii) (size : Z)
  : result BufferAllocated :=
  b' ← (if buf_remaining b <? size
        then buf_resize b (offset_ b + size_ b + size)
        else Ok b);
  Ok (mkBuffer (memcpy (data_ b') (offset_ b' + size_ b') src size)
               (offset_ b') (size_ b' + size) (capacity_ b') (flags_ b')).

(** Modelled from the spec: [set_trailer(value)] stores [value] just
    behind the bytes in use and leaves the size as it is. *)
Definition buf_set_trailer (b : BufferAllocated) (value : ascii)
  : result BufferAllocated :=
  b' ← (if buf_remaining b =? 0
        then buf_resize b (offset_ b + size_ b + 1)
        else Ok b);
  Ok (mkBuffer (<[Z.to_nat (offset_ b' + size_ b') := value]> (data_ b'))
               (offset_ b') (size_ b') (capacity_ b') (flags_ b')).

(** Modelled from the spec: [buf_to_string] copies the bytes in use. *)
Definition buf_to_string (b : BufferAllocated) : string :=
  string_of_list_ascii
    (take (Z.to_nat (size_ b)) (drop (Z.to_nat (offset_ b)) (data_ b))).

(** ** SafeString (safestr.hpp) *)

Record SafeString : Type := mkSafeString { data : BufferAllocated }.

Definition BUF_FLAGS : Z :=
  Z.lor BufAllocFlags.DESTRUCT_ZERO BufAllocFlags.GROW.

Definition trail (d : BufferAllocated) : result BufferAllocated :=
  buf_set_trailer d zero.

(** [SafeString(const char *str, const size_t size)]: [str] is the
    memory readable from the pointer. *)
Definition SafeString_of_ptr (str : list ascii) (size : Z)
  : result SafeString :=
  let d := BufferAllocated_ctor (size_t (size + 1)) BUF_FLAGS in
  if size =? size_t_max then Throw "buffer_overflow"
  else
    d ← buf_write d str size;
    d ← trail d;
    Ok (mkSafeString d).

(** [std::string::c_str()] and [std::string::length()]. *)
Definition c_str_of (s : string) : list ascii :=
  list_ascii_of_string s ++ [zero].
Definition std_length (s : string) : Z := Z.of_nat (String.length s).

(** [SafeString(const std::string &str)] *)
Definition SafeString_of_string (s : string) : result SafeString :=
  SafeString_of_ptr (c_str_of s) (std_length s).

Definition to_string (ss : SafeString) : string := buf_to_string (data ss).

Definition SafeString_length (ss : SafeString) : Z := buf_size (data ss).

Definition SafeString_empty (ss : SafeString) : bool :=
  SafeString_length ss =? 0.

(** *** The rest of the buffer primitives SafeString calls *)

(** Modelled from the spec: [allocated()], whether the buffer has a
    backing array, and [defined()], whether it holds any byte. *)
Definition buf_allocated (b : BufferAllocated) : bool :=
  negb (capacity_ b =? 0).

Definition buf_defined (b : BufferAllocated) : bool := 0 <? size_ b.

(** Modelled from the spec: [c_data()] points at the first byte in use;
    the value is the memory readable from there. *)
Definition buf_c_data (b : BufferAllocated) : list ascii :=
  drop (Z.to_nat (offset_ b)) (data_ b).

(** Modelled from the spec: [init(capacity, flags)] replaces the backing
    array by a new, empty one. *)
Definition buf_init (capacity flags : Z) : BufferAllocated :=
  BufferAllocated_ctor capacity flags.

(** Modelled from the spec: [push_back(value)] appends one byte, growing
    the buffer when it is full. *)
Definition buf_push_back (b : BufferAllocated) (value : ascii)
  : result BufferAllocated :=
  b' ← (if buf_remaining b =? 0
        then buf_resize b (offset_ b + size_ b + 1)
        else Ok b);
  Ok (mkBuffer (<[Z.to_nat (offset_ b' + size_ b') := value]> (data_ b'))
               (offset_ b') (size_ b' + 1) (capacity_ b') (flags_ b')).

(** Modelled from the spec: [append(other)] writes the bytes in use of
    another buffer. *)
Definition buf_append (b other : BufferAllocated) : result BufferAllocated :=
  buf_write b (buf_c_data other) (buf_size other).

(** Modelled from the spec: [reserve(n)] makes room for [n] bytes in
    all and keeps the content. *)
Definition buf_reserve (b : BufferAllocated) (n : Z)
  : result BufferAllocated :=
  buf_resize b n.

(** Modelled from the spec: [clear()] gives the backing array up. *)
Definition buf_clear (b : BufferAllocated) : BufferAllocated :=
  mkBuffer [] 0 0 0 (flags_ b).

(** *** The rest of SafeString *)

Definition INITIAL_CAPACITY : Z := 32.

(** [SafeString()] *)
Definition SafeString_default : SafeString :=
  mkSafeString BufferAllocated_default.

(** [std::strlen]: the number of bytes before the first NUL of the
    memory readable from the pointer. *)
Fixpoint strlen (str : list ascii) : Z :=
  match str with
  | [] => 0
  | c :: str' => if Ascii.eqb c zero then 0 else 1 + strlen str'
  end.

(** What a reader of a [const char *] sees: the bytes before the first
    NUL. *)
Definition cstring (str : list ascii) : list ascii :=
  take (Z.to_nat (strlen str)) str.

(** [SafeString(const char *str)] *)
Definition SafeString_of_cstr (str : list ascii) : result SafeString :=
  SafeString_of_ptr str (strlen str).

(** [c_str()]: the memory readable from the returned pointer; the
    literal [""] is one NUL. *)
Definition c_str (ss : SafeString) : list ascii :=
  if buf_defined (data ss) then buf_c_data (data ss) else [zero].

Definition alloc (d : BufferAllocated) : BufferAllocated :=
  if negb (buf_allocated d) then buf_init INITIAL_CAPACITY BUF_FLAGS else d.

(** [operator+=(char c)] *)
Definition SafeString_push_back (ss : SafeString) (c : ascii)
  : result SafeString :=
  d ← buf_push_back (alloc (data ss)) c;
  d ← trail d;
  Ok (mkSafeString d).

(** [append(const char *s)] *)
Definition SafeString_append_cstr (ss : SafeString) (s : list ascii)
  : result SafeString :=
  d ← buf_write (alloc (data ss)) s (strlen s);
  d ← trail d;
  Ok (mkSafeString d).

(** [append(const SafeString &str)], for [str] another object than
    [*this]. *)
Definition SafeString_append (ss str : SafeString) : result SafeString :=
  d ← buf_append (alloc (data ss)) (data str);
  d ← trail d;
  Ok (mkSafeString d).

(** [reserve(const size_t n)] *)
Definition SafeString_reserve (ss : SafeString) (n : Z)
  : result SafeString :=
  if buf_allocated (data ss)
  then d ← buf_reserve (data ss) (size_t (n + 1)); Ok (mkSafeString d)
  else Ok (mkSafeString (buf_init (size_t (n + 1)) BUF_FLAGS)).

(** [wipe()] *)
Definition SafeString_wipe (ss : SafeString) : SafeString :=
  mkSafeString (buf_clear (data ss)).

(** The bytes in use. *)
Definition buf_content (b : BufferAllocated) : list ascii :=
  take (Z.to_nat (size_ b)) (drop (Z.to_nat (offset_ b)) (data_ b)).

(** A buffer that can be written to: the bytes in use lie within the
    backing array, and the array may grow. *)
Definition buf_ok (b : BufferAllocated) : Prop :=
  0 <= offset_ b
  /\ 0 <= size_ b
  /\ offset_ b + size_ b <= capacity_ b
  /\ length (data_ b) = Z.to_nat (capacity_ b)
  /\ BufAllocFlags.has (flags_ b) BufAllocFlags.GROW = true.

(** What the constructors and the operations that end in [trail] leave:
    the bytes in use lie within the backing array, an allocated buffer
    may grow, and a string that holds bytes has a NUL right behind them.
    [reserve], which does not call [trail], keeps all of it but the
    NUL. *)
Definition SafeString_inv (ss : SafeString) : Prop :=
  let b := data ss in
  0 <= offset_ b
  /\ 0 <= size_ b
  /\ offset_ b + size_ b <= capacity_ b
  /\ length (data_ b) = Z.to_nat (capacity_ b)
  /\ (buf_allocated b = true ->
      BufAllocFlags.has (flags_ b) BufAllocFlags.GROW = true)
  /\ (buf_defined b = true ->
      data_ b !! Z.to_nat (offset_ b + size_ b) = Some zero).
End Buffer.

(** ** The tun client (tuncli.hpp) *)

Module IP.
(** Modelled from the spec: [IP::Addr] ([openvpn/addr/ip.hpp]) is not
    among the sources.  An address is optional; "unspecified" is a valid
    value, and a specified one has a textual form. *)
Inductive Addr : Type :=
| UNSPEC
| V4 (text : string)
| V6 (text : string).

Definition specified (a : Addr) : bool :=
  match a with UNSPEC => false | _ => true end.

Definition to_string (a : Addr) : string :=
  match a with UNSPEC => "UNSPEC" | V4 t | V6 t => t end.
End IP.

Module TunLinux.

(** *** Data *)

Inductive Layer : Type := NONE | OSI_LAYER_2 | OSI_LAYER_3.

Inductive Error_Type : Type :=
| TUN_SETUP_FAILED
| TUN_READ_ERROR
| TUN_EOF.

(** An [Option] is its directive followed by its arguments. *)
Definition Option_ : Type := list string.
Definition OptionList : Type := list Option_.

(** Modelled from the spec: Session State ([TunProp::State]), the
    negotiated addresses, gateways, MTU and interface name; a new one has
    every address unspecified. *)
Record State : Type := mkState {
  iface_name : string;
  vpn_ip4_addr : IP.Addr;
  vpn_ip6_addr : IP.Addr;
  vpn_ip4_gw : IP.Addr;
  vpn_ip6_gw : IP.Addr;
  mtu : Z
}.

Definition new_State : State :=
  mkState "" IP.UNSPEC IP.UNSPEC IP.UNSPEC IP.UNSPEC 0.

Definition set_iface_name (st : State) (n : string) : State :=
  mkState n (vpn_ip4_addr st) (vpn_ip6_addr st)
          (vpn_ip4_gw st) (vpn_ip6_gw st) (mtu st).

(** [TunProp::Config]: the client reads [layer] and [mtu]; the fields it
    never looks at are kept together in [prop_rest]. *)
Record TunProp_Config : Type := mkTunProp {
  layer : Layer;
  prop_mtu : Z;
  prop_rest : list (string * string)
}.

Record TunBuilderCapture : Type := mkCapture { capture_text : string }.

(** [TunBuilderSetup::Base] objects: made by the injected factory or the
    built-in [TunLinuxSetup::Setup<TUN_LINUX>]. *)
Inductive Setup : Type :=
| FactorySetup (factory : nat)
| LinuxSetup.

(** [TunLinuxSetup::Setup<TUN_LINUX>::Config] *)
Record SetupConfig : Type := mkSetupConfig {
  ts_layer : Layer;
  ts_dev_name : string;
  ts_txqueuelen : Z;
  ts_add_bypass_routes_on_establish : bool
}.

Record TransportClient : Type := mkTransport {
  server_endpoint_addr : result IP.Addr
}.

(** *** Persistence store *)

Inductive TunWrapObjRetain : Type := NO_RETAIN | RETAIN.

Record Persisted : Type := mkPersisted {
  p_obj : Z;
  p_state : State
}.

(** Modelled from the spec: the Persistence Store ([TunPersistTemplate],
    [openvpn/tun/persist/tunpersist.hpp]) is not among the sources.  It is
    a single slot holding a retained (descriptor, Session State) pair and
    a teardown capability. *)
Record TunPersist : Type := mkTunPersist {
  enable_persistence : bool;
  retain_obj : TunWrapObjRetain;
  tb : option nat;
  held : option Persisted;
  destructor : option Setup
}.

Definition TunPersist_ctor (enable : bool) (retain : TunWrapObjRetain)
           (tb : option nat) : TunPersist :=
  mkTunPersist enable retain tb None None.

(** [obj()] is [-1] and [state()] is null when nothing is held; the
    client reads them only after [use_persisted_tun] returned true. *)
Definition TunPersist_obj (tp : TunPersist) : Z :=
  match held tp with Some p => p_obj p | None => -1 end.

Definition TunPersist_state (tp : TunPersist) : State :=
  match held tp with Some p => p_state p | None => new_State end.

(** The client's [tun_persist] pointer either shares the long-term store
    of its [ClientConfig] or is the only owner of a short-term store. *)
Inductive PersistPtr : Type :=
| LongTerm
| ShortTerm (tp : TunPersist).

(** *** Config *)

Record ClientConfig : Type := mkClientConfig {
  dev_name : string;
  txqueuelen : Z;
  tun_prop : TunProp_Config;
  generate_tun_builder_capture_event : bool;
  n_parallel : Z;
  frame : option nat;
  stats : option nat;
  tun_setup_factory : option nat;
  cfg_tun_persist : option TunPersist
}.

(** [ClientConfig::new_obj()], with the in-class initialisers. *)
Definition new_obj : ClientConfig :=
  mkClientConfig "" 200 (mkTunProp NONE 0 []) false 8 None None None None.

Definition set_dev_name (c : ClientConfig) (n : string) : ClientConfig :=
  mkClientConfig n (txqueuelen c) (tun_prop c)
    (generate_tun_builder_capture_event c) (n_parallel c) (frame c)
    (stats c) (tun_setup_factory c) (cfg_tun_persist c).

Definition set_prop_mtu (c : ClientConfig) (m : Z) : ClientConfig :=
  mkClientConfig (dev_name c) (txqueuelen c)
    (mkTunProp (layer (tun_prop c)) m (prop_rest (tun_prop c)))
    (generate_tun_builder_capture_event c) (n_parallel c) (frame c)
    (stats c) (tun_setup_factory c) (cfg_tun_persist c).

Definition set_cfg_tun_persist (c : ClientConfig) (tp : option TunPersist)
  : ClientConfig :=
  mkClientConfig (dev_name c) (txqueuelen c) (tun_prop c)
    (generate_tun_builder_capture_event c) (n_parallel c) (frame c)
    (stats c) (tun_setup_factory c) tp.

Definition new_setup_obj (c : ClientConfig) : Setup :=
  match tun_setup_factory c with
  | Some f => FactorySetup f
  | None => LinuxSetup
  end.

(** *** Pump *)

(** [Tun<ReadHandler>] with the members of its [TunIO] base that the
    client relies on.  [reads] counts the read operations handed to the
    descriptor and not yet completed. *)
Record Tun : Type := mkTun {
  pump_id : nat;
  name_ : string;
  retain_stream : bool;
  stream : option Z;
  tun_halt : bool;
  reads : nat
}.

(** The constructor of [Tun]. *)
Definition Tun_ctor (id : nat) (socket : Z) (name : string) : Tun :=
  mkTun id name true (Some socket) false 0.

Definition Tun_name (t : Tun) : string := name_ t.

(** *** Controller *)

Record Client : Type := mkClient {
  tun_persist : option PersistPtr;
  impl : option Tun;
  state : State;
  tun_setup : option Setup;
  halt : bool
}.

(** The constructor of [Client]. *)
Definition Client_ctor : Client :=
  mkClient None None new_State None false.

(** *** Calls that leave the controller *)

Inductive Event : Type :=
(* upcalls to the parent *)
| tun_pre_tun_config
| tun_connected
| tun_error (kind : Error_Type) (what : string)
| tun_recv (buf : BufferAllocated)
| tun_event (name : string) (po : TunBuilderCapture)
(* persistence store *)
| persist_use (server : IP.Addr) (prop : TunProp_Config) (opt : OptionList)
| persist_close
| persist_save (sd : Z) (st : State)
| persist_add_destructor (s : Setup)
| persist_release
(* what a store does to the resources it owns *)
| fd_closed (sd : Z)
| setup_destroyed (s : Setup)
(* property derivation and device setup *)
| prop_configure (server : IP.Addr) (prop : TunProp_Config)
                 (opt : OptionList)
| setup_establish (s : Setup) (po : TunBuilderCapture) (ts : SetupConfig)
(* pump *)
| pump_open (id : nat) (sd : Z) (name : string)
| pump_start (id : nat) (n : Z)
| pump_stop (id : nat)
| pump_write (id : nat) (buf : BufferAllocated)
| pump_callback (id : nat).

(** Handlers waiting in the [io_context]. *)
Inductive Task : Type :=
| ReadDone (id : nat) (packet : result BufferAllocated)
| PostedStart (opt : OptionList) (transcli : TransportClient).

(** Everything a controller can reach: its own members, the config it
    shares with the factory (and with it the long-term store), the
    handler queue of the [io_context], and the calls made so far. *)
Record World : Type := mkWorld {
  config : ClientConfig;
  client : Client;
  io_context : list Task;
  next_pump : nat;
  trace : list Event
}.

Definition with_config (w : World) (c : ClientConfig) : World :=
  mkWorld c (client w) (io_context w) (next_pump w) (trace w).
Definition with_client (w : World) (c : Client) : World :=
  mkWorld (config w) c (io_context w) (next_pump w) (trace w).
Definition with_io_context (w : World) (q : list Task) : World :=
  mkWorld (config w) (client w) q (next_pump w) (trace w).
Definition with_next_pump (w : World) (n : nat) : World :=
  mkWorld (config w) (client w) (io_context w) n (trace w).
Definition with_trace (w : World) (t : list Event) : World :=
  mkWorld (config w) (client w) (io_context w) (next_pump w) t.

Definition set_tun_persist (c : Client) (p : option PersistPtr) : Client :=
  mkClient p (impl c) (state c) (tun_setup c) (halt c).
Definition set_impl (c : Client) (i : option Tun) : Client :=
  mkClient (tun_persist c) i (state c) (tun_setup c) (halt c).
Definition set_state (c : Client) (s : State) : Client :=
  mkClient (tun_persist c) (impl c) s (tun_setup c) (halt c).
Definition set_tun_setup (c : Client) (s : option Setup) : Client :=
  mkClient (tun_persist c) (impl c) (state c) s (halt c).
Definition set_halt (c : Client) (h : bool) : Client :=
  mkClient (tun_persist c) (impl c) (state c) (tun_setup c) h.

(** *** Statements that change the world or throw *)

Definition M (A : Type) : Type := World -> result A * World.

Definition M_ret {A} (a : A) : M A := fun w => (Ok a, w).

Definition M_bind {A B} (f : A -> M B) (m : M A) : M B :=
  fun w =>
    match m w with
    | (Ok a, w') => f a w'
    | (Throw e, w') => (Throw e, w')
    end.

#[global] Instance M_mret : MRet M := @M_ret.
#[global] Instance M_mbind : MBind M := @M_bind.

Definition try_catch (body : M unit) (handler : string -> M unit) : M unit :=
  fun w =>
    match body w with
    | (Ok a, w') => (Ok a, w')
    | (Throw e, w') => handler e w'
    end.

Definition gets {A} (f : World -> A) : M A := fun w => (Ok (f w), w).
Definition modify (f : World -> World) : M unit := fun w => (Ok tt, f w).
Definition lift {A} (r : result A) : M A := fun w => (r, w).
Definition emit (e : Event) : M unit :=
  modify (fun w => with_trace w (trace w ++ [e])).
Definition modify_client (f : Client -> Client) : M unit :=
  modify (fun w => with_client w (f (client w))).
Definition when (b : bool) (m : M unit) : M unit :=
  if b then m else M_ret tt.

(** The world a statement leaves behind, and the calls it made. *)
Definition exec {A} (m : M A) (w : World) : World := snd (m w).
Definition outcome {A} (m : M A) (w : World) : result A := fst (m w).
Definition emitted {A} (m : M A) (w : World) : list Event :=
  drop (length (trace w)) (trace (exec m w)).

(** *** Collaborators *)

(** What the client calls and [src/] does not define: option lookup
    ([options.hpp]), the default MTU, [TunProp::configure_builder], the
    device setup's [establish], the store's compatibility policy and its
    acquisition of a descriptor, and the descriptor's acceptance of a
    packet.  [configure_builder] works on the Session State it is handed,
    also when it throws; [establish] yields the descriptor and the
    interface name it writes into its config argument. *)
Record Env : Type := mkEnv {
  HAVE_JSON : bool;
  TUN_MTU_DEFAULT : Z;
  get_ptr : OptionList -> string -> option Option_;
  Option_get : Option_ -> nat -> nat -> result string;
  configure_builder :
    State -> IP.Addr -> TunProp_Config -> OptionList
    -> State * result TunBuilderCapture;
  establish :
    Setup -> TunBuilderCapture -> SetupConfig -> result (Z * string);
  compatible :
    State -> IP.Addr -> TunProp_Config -> OptionList -> result bool;
  acquire : Z -> result unit;
  stream_write : Z -> BufferAllocated -> bool
}.

Section Controller.
Variable E : Env.

(** *** ClientConfig::load *)

(** The config after the call, and whether the call returned or
    threw. *)
Definition load (c : ClientConfig) (opt : OptionList)
  : result unit * ClientConfig :=
  (* set a default MTU *)
  let c := if prop_mtu (tun_prop c) =? 0
           then set_prop_mtu c (TUN_MTU_DEFAULT E) else c in
  (* parse "dev" option *)
  if String.eqb (dev_name c) ""
  then match get_ptr E opt "dev" with
       | Some dev =>
           match Option_get E dev 1 64 with
           | Ok v => (Ok tt, set_dev_name c v)
           | Throw e => (Throw e, c)
           end
       | None => (Ok tt, c)
       end
  else (Ok tt, c).

(** *** The store behind [tun_persist] *)

Definition current_store (w : World) : option TunPersist :=
  match tun_persist (client w) with
  | Some LongTerm => cfg_tun_persist (config w)
  | Some (ShortTerm tp) => Some tp
  | None => None
  end.

Definition put_store (tp : TunPersist) (w : World) : World :=
  match tun_persist (client w) with
  | Some LongTerm =>
      with_config w (set_cfg_tun_persist (config w) (Some tp))
  | Some (ShortTerm _) =>
      with_client w (set_tun_persist (client w) (Some (ShortTerm tp)))
  | None => w
  end.

(** Modelled from the spec: [use_persisted] is true iff a resource is
    retained and the policy finds it compatible with the request; the
    store is left as it is. *)
Definition use_persisted_tun (tp : TunPersist) (server : IP.Addr)
           (prop : TunProp_Config) (opt : OptionList) : result bool :=
  match held tp with
  | Some p => compatible E (p_state p) server prop opt
  | None => Ok false
  end.

(** Modelled from the spec: releasing what a store holds runs the
    attached teardown capability and closes the descriptor. *)
Definition release_events (tp : TunPersist) : list Event :=
  match destructor tp with Some s => [setup_destroyed s] | None => [] end
  ++ match held tp with Some p => [fd_closed (p_obj p)] | None => [] end.

(** Modelled from the spec: [close()] releases the resource, if any. *)
Definition TunPersist_close (tp : TunPersist) : TunPersist :=
  mkTunPersist (enable_persistence tp) (retain_obj tp) (tb tp) None None.

(** Modelled from the spec: [persist(resource, state)] replaces the
    content. *)
Definition TunPersist_persist (tp : TunPersist) (sd : Z) (st : State)
  : TunPersist :=
  mkTunPersist (enable_persistence tp) (retain_obj tp) (tb tp)
               (Some (mkPersisted sd st)) (destructor tp).

(** Modelled from the spec: [add_destructor(capability)]. *)
Definition TunPersist_add_destructor (tp : TunPersist) (s : Setup)
  : TunPersist :=
  mkTunPersist (enable_persistence tp) (retain_obj tp) (tb tp)
               (held tp) (Some s).

Definition emit_all (es : list Event) : M unit :=
  modify (fun w => with_trace w (trace w ++ es)).

(** [tun_persist->use_persisted_tun(server_addr, tun_prop, opt)] *)
Definition persist_use_persisted_tun (server : IP.Addr)
           (prop : TunProp_Config) (opt : OptionList) : M bool :=
  emit (persist_use server prop opt);;
  tp ← gets current_store;
  match tp with
  | Some tp => lift (use_persisted_tun tp server prop opt)
  | None => mret false
  end.

(** [tun_persist->state()] and [tun_persist->obj()] *)
Definition persist_state : M State :=
  gets (fun w => from_option TunPersist_state new_State (current_store w)).
Definition persist_obj : M Z :=
  gets (fun w => from_option TunPersist_obj (-1) (current_store w)).

(** [tun_persist->close()] *)
Definition persist_do_close : M unit :=
  emit persist_close;;
  tp ← gets current_store;
  match tp with
  | Some tp =>
      emit_all (release_events tp);;
      modify (put_store (TunPersist_close tp))
  | None => mret tt
  end.

(** [tun_persist->persist_tun_state(sd, state)] *)
Definition persist_tun_state (sd : Z) (st : State) : M unit :=
  emit (persist_save sd st);;
  lift (acquire E sd);;
  tp ← gets current_store;
  match tp with
  | Some tp => modify (put_store (TunPersist_persist tp sd st))
  | None => mret tt
  end.

(** [tun_persist->add_destructor(tun_setup)] *)
Definition persist_add_destructor_ (s : Setup) : M unit :=
  emit (persist_add_destructor s);;
  tp ← gets current_store;
  match tp with
  | Some tp => modify (put_store (TunPersist_add_destructor tp s))
  | None => mret tt
  end.

(** [tun_persist.reset()]: the reference is given up; a short-term
    store has no other owner and is destroyed with what it holds, the
    long-term store stays with the config. *)
Definition persist_reset : M unit :=
  p ← gets (fun w => tun_persist (client w));
  match p with
  | Some (ShortTerm tp) =>
      emit persist_release;;
      emit_all (release_events tp);;
      modify_client (fun c => set_tun_persist c None)
  | Some LongTerm =>
      emit persist_release;;
      modify_client (fun c => set_tun_persist c None)
  | None => mret tt
  end.

(** Assignment to [tun_persist] gives up the reference held before. *)
Definition persist_assign (p : PersistPtr) : M unit :=
  persist_reset;;
  modify_client (fun c => set_tun_persist c (Some p)).

(** *** The pump behind [impl] *)

Definition post (t : list Task) : M unit :=
  modify (fun w => with_io_context w (io_context w ++ t)).

(** Modelled from the spec: [TunIO::start(n_parallel)] begins
    [n_parallel] read operations. *)
Definition Tun_start (t : Tun) (n : Z) : M Tun :=
  if tun_halt t then mret t
  else
    emit (pump_start (pump_id t) n);;
    mret (mkTun (pump_id t) (name_ t) (retain_stream t) (stream t)
                (tun_halt t) (reads t + Z.to_nat n)).

(** Modelled from the spec: [TunIO::stop()] cancels every outstanding
    operation, whose handlers are then due with an error, lets go of
    the descriptor without closing it, and leaves the pump inert. *)
Definition Tun_stop (t : Tun) : M Tun :=
  if tun_halt t then mret t
  else
    emit (pump_stop (pump_id t));;
    post (replicate (reads t)
            (ReadDone (pump_id t) (Throw "operation_aborted")));;
    mret (mkTun (pump_id t) (name_ t) (retain_stream t) None true 0).

(** Modelled from the spec: [TunIO::write(buf)] is false once stopped
    or when the packet cannot be queued. *)
Definition Tun_write (t : Tun) (buf : BufferAllocated) : M bool :=
  match tun_halt t, stream t with
  | false, Some sd =>
      emit (pump_write (pump_id t) buf);;
      mret (stream_write E sd buf)
  | _, _ => mret false
  end.

(** [impl->stop()] *)
Definition impl_stop : M unit :=
  i ← gets (fun w => impl (client w));
  match i with
  | Some t =>
      t' ← Tun_stop t;
      modify_client (fun c => set_impl c (Some t'))
  | None => mret tt
  end.

(** [impl.reset()]: [~Tun()] stops the pump. *)
Definition impl_reset : M unit :=
  i ← gets (fun w => impl (client w));
  match i with
  | Some t =>
      Tun_stop t;;
      modify_client (fun c => set_impl c None)
  | None => mret tt
  end.

(** *** Client *)

Definition stop_ : M unit :=
  h ← gets (fun w => halt (client w));
  if h : bool then mret tt
  else
    modify_client (fun c => set_halt c true);;
    (* stop tun *)
    impl_stop;;
    persist_reset.

Definition stop : M unit := stop_.

(** The first branch of [tun_start]: the persisted session is
    adopted. *)
Definition tun_start_reuse : M Z :=
  st ← persist_state;
  modify_client (fun c => set_state c st);;
  sd ← persist_obj;
  st ← persist_state;
  modify_client (fun c => set_state c st);;
  mret sd.

(** The second branch: a new device is configured. *)
Definition tun_start_fresh (server_addr : IP.Addr) (opt : OptionList)
  : M Z :=
  (* notify parent *)
  emit tun_pre_tun_config;;
  (* close old tun handle if persisted *)
  persist_do_close;;
  (* parse pushed options *)
  prop ← gets (fun w => tun_prop (config w));
  emit (prop_configure server_addr prop opt);;
  st ← gets (fun w => state (client w));
  let r := configure_builder E st server_addr prop opt in
  modify_client (fun c => set_state c (fst r));;
  po ← lift (snd r);
  (* create new tun setup object *)
  setup ← gets (fun w => new_setup_obj (config w));
  modify_client (fun c => set_tun_setup c (Some setup));;
  (* create config object for tun setup layer *)
  tsconf ← gets (fun w =>
              mkSetupConfig (layer (tun_prop (config w)))
                            (dev_name (config w))
                            (txqueuelen (config w)) true);
  (* open/config tun *)
  emit (setup_establish setup po tsconf);;
  '(sd, tsconf_iface_name) ← lift (establish E setup po tsconf);
  gen ← gets (fun w => generate_tun_builder_capture_event (config w));
  when (HAVE_JSON E && gen) (emit (tun_event "TUN_BUILDER_CAPTURE" po));;
  (* persist tun settings state *)
  modify_client (fun c =>
                   set_state c (set_iface_name (state c) tsconf_iface_name));;
  st ← gets (fun w => state (client w));
  persist_tun_state sd st;;
  (* enable tun_setup destructor *)
  persist_add_destructor_ setup;;
  mret sd.

Definition tun_start_body (opt : OptionList) (transcli : TransportClient)
  : M unit :=
  server_addr ← lift (server_endpoint_addr transcli);
  prop ← gets (fun w => tun_prop (config w));
  (* Check if persisted tun session matches properties of
     to-be-created session *)
  hit ← persist_use_persisted_tun server_addr prop opt;
  sd ← (if hit : bool then tun_start_reuse
        else tun_start_fresh server_addr opt);
  (* start tun *)
  id ← gets next_pump;
  name ← gets (fun w => iface_name (state (client w)));
  modify (fun w => with_next_pump w (S id));;
  emit (pump_open id sd name);;
  modify_client (fun c => set_impl c (Some (Tun_ctor id sd name)));;
  n ← gets (fun w => n_parallel (config w));
  t ← Tun_start (Tun_ctor id sd name) n;
  modify_client (fun c => set_impl c (Some t));;
  (* signal that we are connected *)
  emit tun_connected.

Definition tun_start_catch (what : string) : M unit :=
  p ← gets (fun w => tun_persist (client w));
  (if p is Some _ then persist_do_close else mret tt);;
  stop;;
  emit (tun_error TUN_SETUP_FAILED what).

(** What [tun_start] does ahead of its [try] block. *)
Definition tun_start_prologue : M unit :=
  modify_client (fun c => set_halt c false);;
  lt ← gets (fun w => cfg_tun_persist (config w));
  if lt is Some _
  then persist_assign LongTerm (* long-term persistent *)
  else persist_assign
         (ShortTerm (TunPersist_ctor true NO_RETAIN None)) (* short-term *).

Definition tun_start (opt : OptionList) (transcli : TransportClient)
  : M unit :=
  i ← gets (fun w => impl (client w));
  match i with
  | Some _ => mret tt
  | None =>
      tun_start_prologue;;
      try_catch (tun_start_body opt transcli) tun_start_catch
  end.

Definition send (buf : BufferAllocated) : M bool :=
  i ← gets (fun w => impl (client w));
  match i with
  | Some t => Tun_write t buf
  | None => mret false
  end.

Definition tun_send (buf : BufferAllocated) : M bool := send buf.

Definition tun_name (c : Client) : string :=
  match impl c with
  | Some t => Tun_name t
  | None => "UNDEF_TUN"
  end.

Definition vpn_ip4 (c : Client) : string :=
  if IP.specified (vpn_ip4_addr (state c))
  then IP.to_string (vpn_ip4_addr (state c)) else "".

Definition vpn_ip6 (c : Client) : string :=
  if IP.specified (vpn_ip6_addr (state c))
  then IP.to_string (vpn_ip6_addr (state c)) else "".

Definition vpn_gw4 (c : Client) : string :=
  if IP.specified (vpn_ip4_gw (state c))
  then IP.to_string (vpn_ip4_gw (state c)) else "".

Definition vpn_gw6 (c : Client) : string :=
  if IP.specified (vpn_ip6_gw (state c))
  then IP.to_string (vpn_ip6_gw (state c)) else "".

Definition vpn_mtu (c : Client) : Z := mtu (state c).

Definition set_disconnect : M unit := mret tt.

Definition supports_epoch_data : bool := true.

Definition apply_push_update (opt : OptionList)
           (transcli : TransportClient) : M unit :=
  stop_;;
  i ← gets (fun w => impl (client w));
  (if i is Some _ then impl_reset else mret tt);;
  (* this has to be done in post, because we need to wait
     for all async tun read requests to complete *)
  post [PostedStart opt transcli].

Definition tun_read_handler (buf : BufferAllocated) : M unit :=
  emit (tun_recv buf).

Definition tun_error_handler (errtype : Error_Type) : M unit := mret tt.

(** [~Client()] and the members' destructors that matter. *)
Definition Client_dtor : M unit :=
  stop_;;
  impl_reset;;
  persist_reset.

(** [ClientConfig::new_tun_client_obj]: a new client on the same
    config. *)
Definition new_tun_client_obj : M unit :=
  modify_client (fun _ => Client_ctor).

(** *** The event loop *)

(** Modelled from the spec: a completed read reaches the controller
    only while its pump runs: a zero-length read and a failed one go to
    the error handler, a packet to the packet handler, and the read is
    handed out again. *)
Definition handle_read (id : nat) (packet : result BufferAllocated)
  : M unit :=
  i ← gets (fun w => impl (client w));
  match i with
  | Some t =>
      if (pump_id t =? id)%nat && negb (tun_halt t)
      then
        match packet with
        | Ok buf => if buf_size buf =? 0
                    then tun_error_handler TUN_EOF
                    else tun_read_handler buf
        | Throw _ => tun_error_handler TUN_READ_ERROR
        end;;
        modify_client (fun c =>
          set_impl c (Some (mkTun (pump_id t) (name_ t) (retain_stream t)
                                  (stream t) (tun_halt t) (S (reads t)))))
      else mret tt
  | None => mret tt
  end.

Definition run_task (t : Task) : M unit :=
  match t with
  | ReadDone id packet => handle_read id packet;; emit (pump_callback id)
  | PostedStart opt transcli => tun_start opt transcli
  end.

(** Modelled from the spec: the [io_context] is a single-threaded
    loop that runs the waiting handlers one at a time, oldest first. *)
Definition run_one : M unit :=
  q ← gets io_context;
  match q with
  | [] => mret tt
  | t :: q' => modify (fun w => with_io_context w q');; run_task t
  end.

Fixpoint run_n (n : nat) : M unit :=
  match n with
  | O => mret tt
  | S n' => run_one;; run_n n'
  end.

(** One of the pump's read operations completes: its handler joins the
    queue. *)
Definition read_completes (packet : BufferAllocated) : M unit :=
  i ← gets (fun w => impl (client w));
  match i with
  | Some t =>
      match tun_halt t, reads t with
      | false, S k =>
          modify_client (fun c =>
            set_impl c (Some (mkTun (pump_id t) (name_ t) (retain_stream t)
                                    (stream t) (tun_halt t) k)));;
          post [ReadDone (pump_id t) (Ok packet)]
      | _, _ => mret tt
      end
  | None => mret tt
  end.
End Controller.

(** *** States and calls the properties speak of *)

(** Connected: a pump exists and runs.  Idle: no pump runs and no store
    is referenced. *)
Definition pump_running (c : Client) : bool :=
  match impl c with
  | Some t => negb (tun_halt t)
  | None => false
  end.

Definition Connected (w : World) : Prop := pump_running (client w) = true.

Definition Idle (w : World) : Prop :=
  pump_running (client w) = false /\ tun_persist (client w) = None.

(** The store [tun_start] selects: the config's long-term one, or else a
    new short-term one. *)
Definition start_ptr (w : World) : PersistPtr :=
  match cfg_tun_persist (config w) with
  | Some _ => LongTerm
  | None => ShortTerm (TunPersist_ctor true NO_RETAIN None)
  end.

Definition start_store (w : World) : TunPersist :=
  match cfg_tun_persist (config w) with
  | Some tp => tp
  | None => TunPersist_ctor true NO_RETAIN None
  end.

(** The reference in [tun_persist] is of the same kind as [p], and a
    short-term one has left the config [cfg] as it was. *)
Definition same_kind (p : PersistPtr) (cfg : ClientConfig) (w : World)
  : Prop :=
  match p, tun_persist (client w) with
  | LongTerm, Some LongTerm => True
  | ShortTerm _, Some (ShortTerm _) => config w = cfg
  | _, _ => False
  end.

Definition is_establish (e : Event) : bool :=
  match e with setup_establish _ _ _ => true | _ => false end.
Definition is_connected (e : Event) : bool :=
  match e with tun_connected => true | _ => false end.
Definition is_error (e : Event) : bool :=
  match e with tun_error _ _ => true | _ => false end.
Definition is_store_close (e : Event) : bool :=
  match e with persist_close => true | _ => false end.

(** The calls only the establishment path of [tun_start] makes. *)
Definition is_establishment (e : Event) : bool :=
  match e with
  | tun_pre_tun_config | tun_connected | persist_use _ _ _
  | prop_configure _ _ _ | setup_establish _ _ _ | persist_save _ _
  | persist_add_destructor _ | pump_open _ _ _ | pump_start _ _ => true
  | _ => false
  end.

Definition is_release (e : Event) : bool :=
  match e with
  | persist_release | fd_closed _ | setup_destroyed _ => true
  | _ => false
  end.

(** How many of the calls in [l] satisfy [p]. *)
Fixpoint count (p : Event -> bool) (l : list Event) : nat :=
  match l with
  | [] => 0%nat
  | e :: l' => ((if p e then 1 else 0) + count p l')%nat
  end.

(** Every call in [l] that satisfies [q] has a call that satisfies [p]
    before it. *)
Fixpoint precedes (p q : Event -> bool) (l : list Event) : bool :=
  match l with
  | [] => true
  | e :: l' => if q e then false else if p e then true else precedes p q l'
  end.

(** The handlers that become due when the pump of [c] is stopped: one
    for each read still outstanding. *)
Definition aborted_reads (c : Client) : list Task :=
  match impl c with
  | Some t =>
      if tun_halt t then []
      else replicate (reads t)
             (ReadDone (pump_id t) (Throw "operation_aborted"))
  | None => []
  end.

(** A controller as the factory hands it out. *)
Definition new_world (cfg : ClientConfig) : World :=
  mkWorld cfg Client_ctor [] 0 [].

(** The worlds a controller can be in before any [tun_start] of it has
    succeeded; the flag tells whether a [tun_start] was attempted. *)
Inductive idle_before_start (E : Env) : bool -> World -> Prop :=
| idle_new cfg q n tr :
    idle_before_start E false (mkWorld cfg Client_ctor q n tr)
| idle_stop a w :
    idle_before_start E a w -> idle_before_start E a (exec stop w)
| idle_send a w buf :
    idle_before_start E a w ->
    idle_before_start E a (exec (tun_send E buf) w)
| idle_set_disconnect a w :
    idle_before_start E a w ->
    idle_before_start E a (exec set_disconnect w)
| idle_failed_start a w opt transcli :
    idle_before_start E a w ->
    count is_connected (emitted (tun_start E opt transcli) w) = 0%nat ->
    idle_before_start E true (exec (tun_start E opt transcli) w).

(** *** More states and calls *)

Definition is_fd_closed (e : Event) : bool :=
  match e with fd_closed _ => true | _ => false end.
Definition is_recv (e : Event) : bool :=
  match e with tun_recv _ => true | _ => false end.
Definition is_read_done (t : Task) : bool :=
  match t with ReadDone _ _ => true | PostedStart _ _ => false end.

(** The call a handler of a completed read ends with. *)
Definition callback_of (t : Task) : list Event :=
  match t with
  | ReadDone id _ => [pump_callback id]
  | PostedStart _ _ => []
  end.

(** The controller references a store exactly while its pump runs, and
    then it is not halted. *)
Definition controller_inv (w : World) : Prop :=
  match tun_persist (client w) with
  | Some _ => pump_running (client w) = true /\ halt (client w) = false
  | None => pump_running (client w) = false
  end.

(** The worlds a controller gets into by its public operations and the
    event loop, from the moment the factory made it. *)
Inductive reachable (E : Env) : World -> Prop :=
| reach_new cfg : reachable E (new_world cfg)
| reach_start w opt transcli :
    reachable E w -> reachable E (exec (tun_start E opt transcli) w)
| reach_stop w : reachable E w -> reachable E (exec stop w)
| reach_push_update w opt transcli :
    reachable E w -> reachable E (exec (apply_push_update opt transcli) w)
| reach_send w buf :
    reachable E w -> reachable E (exec (tun_send E buf) w)
| reach_set_disconnect w :
    reachable E w -> reachable E (exec set_disconnect w)
| reach_read_completes w packet :
    reachable E w -> reachable E (exec (read_completes packet) w)
| reach_run_one w : reachable E w -> reachable E (exec (run_one E) w).
End TunLinux.

(** ** A concrete setting *)

(** One choice of collaborators, to run the controller on: options are
    looked up by directive, the VPN hands out 10.8.0.2 behind the server as
    gateway, the device setup opens descriptor 5 as "tun0" unless asked for
    the device "bad", and the store's policy accepts a persisted session for
    the same server. *)
Module Demo.
Import TunLinux.

Definition demo_get_ptr (opt : OptionList) (name : string)
  : option Option_ :=
  last (List.filter (fun o => match o with
                              | d :: _ => String.eqb d name
                              | [] => false
                              end) opt).

Definition demo_Option_get (o : Option_) (index max_len : nat)
  : result string :=
  match o !! index with
  | Some v => if (max_len <? String.length v)%nat
              then Throw "option_error: argument is too long" else Ok v
  | None => Throw "option_error: missing argument"
  end.

Definition addr_eqb (a b : IP.Addr) : bool :=
  match a, b with
  | IP.UNSPEC, IP.UNSPEC => true
  | IP.V4 x, IP.V4 y | IP.V6 x, IP.V6 y => String.eqb x y
  | _, _ => false
  end.

Definition demo_capture : TunBuilderCapture :=
  mkCapture "remote 203.0.113.9, ifconfig 10.8.0.2".

Definition demo_env : Env :=
  mkEnv false 1500 demo_get_ptr demo_Option_get
    (fun st server prop opt =>
       (mkState (iface_name st) (IP.V4 "10.8.0.2") IP.UNSPEC
                server IP.UNSPEC (prop_mtu prop),
        Ok demo_capture))
    (fun s po ts => if String.eqb (ts_dev_name ts) "bad"
                    then Throw "cannot open tun"
                    else Ok (5, "tun0"%string))
    (fun st server prop opt => Ok (addr_eqb (vpn_ip4_gw st) server))
    (fun sd => Ok tt)
    (fun sd buf => true).

Definition server_addr : IP.Addr := IP.V4 "203.0.113.9".

Definition transport : TransportClient := mkTransport (Ok server_addr).

Definition empty_store : TunPersist := TunPersist_ctor true NO_RETAIN None.

(** A config with a long-term store, and one that asks for a device the
    setup cannot open. *)
Definition long_term_config : ClientConfig :=
  set_cfg_tun_persist (set_prop_mtu new_obj 1500) (Some empty_store).

Definition bad_config : ClientConfig := set_dev_name new_obj "bad".

Definition demo_state : State :=
  mkState "" (IP.V4 "10.8.0.2") IP.UNSPEC server_addr IP.UNSPEC 1500.



Definition packet : BufferAllocated :=
  mkBuffer (list_ascii_of_string "ping") 0 4 4 0.

Definition dots (n : nat) : ascii := "."%char.
End Demo.

(** A SafeString as the constructor leaves it for "tun". *)
Module DemoStrings.
Definition tun : SafeString :=
  mkSafeString (mkBuffer (list_ascii_of_string "tun" ++ [zero]) 0 3 4
                         BUF_FLAGS).

Definition tun0_and_more : list ascii :=
  list_ascii_of_string "tun0" ++ zero :: list_ascii_of_string "junk".
End DemoStrings.

(** * Theorems *)

Section SafeStringFacts.
Variable uninit : nat -> ascii.

Lemma length_new_array from capacity flags :
  length (new_array uninit from capacity flags) = Z.to_nat capacity.
Proof.
  unfold new_array. destruct (BufAllocFlags.has _ _).
  - apply length_replicate.
  - rewrite length_fmap. apply length_seq.
Qed.

Lemma length_list_ascii_of_string (s : string) :
  length (list_ascii_of_string s) = String.length s.
Proof. induction s as [|c s IH]; simpl; [done | by rewrite IH]. Qed.

(** C10: for every string whose length is below the largest [size_t],
    building a SafeString from it succeeds, [to_string] gives the string
    back and [length] is the string's length. *)
Theorem SafeString_round_trip (s : string) :
  std_length s < size_t_max ->
  exists ss, SafeString_of_string uninit s = Ok ss
             /\ to_string ss = s
             /\ SafeString_length ss = std_length s.
Proof.
  intros Hlt.
  assert (Hn : 0 <= std_length s) by apply Nat2Z.is_nonneg.
  unfold SafeString_of_string, SafeString_of_ptr.
  destruct (Z.eqb_spec (std_length s) size_t_max) as [He|_]; [lia|].
  assert (Hcap : size_t (std_length s + 1) = std_length s + 1).
  { unfold size_t. apply Z.mod_small. unfold size_t_max in Hlt. lia. }
  rewrite Hcap.
  unfold buf_write, BufferAllocated_ctor, buf_remaining; simpl.
  destruct (Z.ltb_spec (std_length s + 1 - 0 - 0) (std_length s)) as [?|_];
    [lia|].
  simpl. unfold trail, buf_set_trailer, buf_remaining; simpl.
  destruct (Z.eqb_spec (std_length s + 1 - 0 - (0 + std_length s)) 0)
    as [?|_]; [lia|].
  simpl. eexists; split; [reflexivity|].
  split; [|reflexivity].
  unfold to_string, buf_to_string; simpl.
  unfold memcpy, c_str_of. simpl.
  assert (Hlen : Z.to_nat (std_length s)
                 = length (list_ascii_of_string s)).
  { unfold std_length. rewrite Nat2Z.id.
    by rewrite length_list_ascii_of_string. }
  rewrite !Z.add_0_l, Hlen.
  change (Z.to_nat 0) with 0%nat. rewrite drop_0.
  rewrite take_insert_ge by lia.
  rewrite !take_app_length.
  apply string_of_list_ascii_of_string.
Qed.
End SafeStringFacts.

Import TunLinux.

(** ** ClientConfig::load *)

Section LoadFacts.
Variable E : Env.

(** C9: [load] leaves every field but the MTU and the device name as it
    was.  The MTU becomes the default exactly when it was unset, whether
    [load] then returns or throws.  A device name that was set is kept
    and [load] returns.  An empty one is filled exactly when the "dev"
    option exists and [get(1, 64)] returns its argument; when [get]
    throws, [load] throws the same and the name stays empty. *)
Theorem load_assigns_mtu_and_dev_name (c : ClientConfig) (opt : OptionList) :
  let r := fst (load E c opt) in
  let c' := snd (load E c opt) in
  (txqueuelen c' = txqueuelen c
   /\ layer (tun_prop c') = layer (tun_prop c)
   /\ prop_rest (tun_prop c') = prop_rest (tun_prop c)
   /\ generate_tun_builder_capture_event c'
      = generate_tun_builder_capture_event c
   /\ n_parallel c' = n_parallel c
   /\ frame c' = frame c
   /\ stats c' = stats c
   /\ tun_setup_factory c' = tun_setup_factory c
   /\ cfg_tun_persist c' = cfg_tun_persist c)
  /\ (prop_mtu (tun_prop c) = 0 -> prop_mtu (tun_prop c') = TUN_MTU_DEFAULT E)
  /\ (prop_mtu (tun_prop c) <> 0 ->
      prop_mtu (tun_prop c') = prop_mtu (tun_prop c))
  /\ (dev_name c <> ""%string -> r = Ok tt /\ dev_name c' = dev_name c)
  /\ (dev_name c = ""%string ->
      match get_ptr E opt "dev" with
      | None => r = Ok tt /\ dev_name c' = ""%string
      | Some dev =>
          match Option_get E dev 1 64 with
          | Ok v => r = Ok tt /\ dev_name c' = v
          | Throw e => r = Throw e /\ dev_name c' = ""%string
          end
      end).
Proof.
  unfold load.
  destruct c as [dn tq [ly m rest] gen np fr st fac tp]; simpl.
  destruct (Z.eqb_spec m 0) as [Hm|Hm]; simpl;
    (destruct (String.eqb_spec dn "") as [Hd|Hd]; simpl;
     [ destruct (get_ptr E opt "dev") as [dev|] eqn:Hget; simpl;
       [ destruct (Option_get E dev 1 64) as [v|e] eqn:Hv; simpl | ]
     | ]);
    split_and!; try done; try lia.
Qed.
End LoadFacts.

(** ** Running statements *)

Lemma emitted_app {A} (m : M A) (w : World) (l : list Event) :
  trace (exec m w) = trace w ++ l -> emitted m w = l.
Proof. unfold emitted. intros ->. apply drop_app_length. Qed.


(** Unfolding: the monad's operations, the statements of [stop], and the
    field updates of a world given by its fields. *)
Ltac unfold_monad :=
  cbv [exec outcome mbind mret M_mbind M_mret M_bind M_ret try_catch gets
       modify modify_client lift emit emit_all when post].

Ltac unfold_stop :=
  cbv [stop stop_ impl_stop impl_reset persist_reset persist_assign
       Tun_stop Client_dtor new_tun_client_obj set_disconnect].

Ltac norm_world :=
  cbv [with_trace with_client with_config with_io_context with_next_pump
       set_tun_persist set_impl set_state set_tun_setup set_halt
       set_cfg_tun_persist put_store current_store
       config client io_context next_pump trace
       tun_persist impl state tun_setup halt].

Ltac norm_trace := rewrite <- ?app_assoc; cbn [app].


(** ** stop *)


(** ** tun_start *)

Ltac unfold_start :=
  cbv [tun_start tun_start_prologue tun_start_body tun_start_catch
       tun_start_reuse tun_start_fresh persist_use_persisted_tun
       persist_state persist_obj persist_do_close persist_tun_state
       persist_add_destructor_ Tun_start].

(** One round of symbolic execution; it stops at a call into the
    collaborators whose result is not known. *)
Ltac run := unfold_start; unfold_stop; unfold_monad; norm_world; cbn.

(** Case analysis on the innermost result the execution waits for. *)
Ltac case_scrutinee :=
  match goal with
  | |- context [match ?x with _ => _ end] =>
      lazymatch x with
      | context [match _ with _ => _ end] => fail
      | _ => destruct x eqn:?
      end
  end.

Ltac full_world w :=
  destruct w as [[dn tq pr gen np fr sts fac lt] [tp i st su h] q n tr].

Lemma count_app p l1 l2 : count p (l1 ++ l2) = (count p l1 + count p l2)%nat.
Proof. induction l1 as [|e l1 IH]; cbn; [done | rewrite IH; lia]. Qed.

(** What [precedes] decides. *)
Lemma precedes_spec p q l :
  precedes p q l = true ->
  forall l1 e l2, l = l1 ++ e :: l2 -> q e = true ->
                  exists e', e' ∈ l1 /\ p e' = true.
Proof.
  induction l as [|x l IH]; intros Hp l1 e l2 Hl Hq.
  - by destruct l1.
  - cbn in Hp. destruct l1 as [|y l1]; cbn in Hl; injection Hl as -> ->.
    + by rewrite Hq in Hp.
    + destruct (q y); [done|]. destruct (p y) eqn:Hpy.
      * exists y. split; [left | done].
      * destruct (IH Hp l1 e l2 eq_refl Hq) as (e' & Hin & He').
        exists e'. split; [by right | done].
Qed.

Section StartFacts.
Variable E : Env.

(** The calls made when the reference in [tun_persist] is given up. *)
Lemma emitted_persist_reset (w : World) :
  emitted persist_reset w
  = match tun_persist (client w) with
    | Some LongTerm => [persist_release]
    | Some (ShortTerm tp) => persist_release :: release_events tp
    | None => []
    end.
Proof.
  full_world w. destruct tp as [[|tp]|]; unfold emitted; run;
    rewrite <- ?app_assoc; by rewrite ?drop_app_length, ?drop_all.
Qed.

(** A probe that succeeds: the whole effect of [tun_start]. *)
Lemma tun_start_hit (w : World) opt tc server :
  impl (client w) = None ->
  server_endpoint_addr tc = Ok server ->
  use_persisted_tun E (start_store w) server (tun_prop (config w)) opt
  = Ok true ->
  let sd := TunPersist_obj (start_store w) in
  let st := TunPersist_state (start_store w) in
  let id := next_pump w in
  tun_start E opt tc w
  = (Ok tt,
     mkWorld (config w)
       (mkClient (Some LongTerm)
          (Some (mkTun id (iface_name st) true (Some sd) false
                       (Z.to_nat (n_parallel (config w)))))
          st (tun_setup (client w)) false)
       (io_context w) (S id)
       (trace w ++ emitted persist_reset w
          ++ [persist_use server (tun_prop (config w)) opt;
              pump_open id sd (iface_name st);
              pump_start id (n_parallel (config w));
              tun_connected])).
Proof.
  rewrite emitted_persist_reset.
  full_world w; cbn. intros -> Hsrv Hhit.
  unfold start_store in *; cbn in *.
  destruct lt as [lt|]; [|discriminate Hhit].
  destruct tp as [[|tp]|]; run; rewrite Hsrv; cbn; rewrite Hhit; cbn;
    norm_trace; done.
Qed.
End StartFacts.

Section StartSteps.
Variable E : Env.

Lemma count_release_events p tp :
  (forall e, is_release e = true -> p e = false) ->
  count p (release_events tp) = 0%nat.
Proof.
  intros Hp. unfold release_events.
  destruct (destructor tp), (held tp); cbn; rewrite ?Hp; done.
Qed.

Lemma forallb_release_events tp : forallb is_release (release_events tp) = true.
Proof. unfold release_events. by destruct (destructor tp), (held tp). Qed.

Lemma count_persist_reset p w :
  (forall e, is_release e = true -> p e = false) ->
  count p (emitted persist_reset w) = 0%nat.
Proof.
  intros Hp. rewrite emitted_persist_reset.
  destruct (tun_persist (client w)) as [[|tp]|]; cbn; rewrite ?Hp; try done.
  by apply count_release_events.
Qed.

Lemma precedes_app_l p q l1 l2 :
  count q l1 = 0%nat -> count p l1 = 0%nat ->
  precedes p q (l1 ++ l2) = precedes p q l2.
Proof.
  induction l1 as [|e l1 IH]; cbn; [done|].
  destruct (q e); [done|]. destruct (p e); [done|]. cbn. apply IH.
Qed.

Lemma precedes_app_r p q l1 l2 :
  precedes p q l1 = true -> count q l2 = 0%nat ->
  precedes p q (l1 ++ l2) = true.
Proof.
  induction l1 as [|e l1 IH]; cbn.
  - intros _. induction l2 as [|e l2 IH2]; cbn; [done|].
    destruct (q e); [done|]. intros H. destruct (p e); [done|]. by apply IH2.
  - destruct (q e); [done|]. destruct (p e); [done|]. apply IH.
Qed.

(** The world ahead of the [try] block. *)
Lemma prologue_run (w : World) :
  tun_start_prologue w
  = (Ok tt,
     mkWorld (config w)
       (mkClient (Some (start_ptr w)) (impl (client w)) (state (client w))
                 (tun_setup (client w)) false)
       (io_context w) (next_pump w)
       (trace w ++ emitted persist_reset w)).
Proof.
  rewrite emitted_persist_reset. full_world w. unfold start_ptr.
  destruct lt, tp as [[|tp]|]; run; norm_trace; by rewrite ?app_nil_r.
Qed.

Lemma current_store_prologue (w : World) :
  current_store (exec tun_start_prologue w) = Some (start_store w).
Proof.
  unfold exec. rewrite prologue_run. full_world w.
  unfold start_ptr, start_store, current_store. by destruct lt.
Qed.
End StartSteps.

Section StartBody.
Variable E : Env.

Lemma body_outcomes cfg p st su h q n tr s opt tc :
  let w1 := mkWorld cfg (mkClient (Some p) None st su h) q n tr in
  current_store w1 = Some s ->
  exists rb wb evb,
    tun_start_body E opt tc w1 = (rb, wb)
    /\ trace wb = tr ++ evb
    /\ precedes is_store_close is_establish evb = true
    /\ (count is_establish evb <= 1)%nat
    /\ count is_error evb = 0%nat
    /\ halt (client wb) = h
    /\ io_context wb = q
    /\ same_kind p cfg wb
    /\ match rb with
       | Ok _ => pump_running (client wb) = true
                 /\ count is_connected evb = 1%nat
       | Throw e => count is_connected evb = 0%nat
                    /\ impl (client wb) = None
                    /\ next_pump wb = n
       end.
Proof.
  destruct cfg as [dn tq pr gen np fr sts fac lt].
  unfold current_store, same_kind; cbn.
  intros Hs.
  assert (Hrel : forall e, is_release e = true -> is_establish e = false)
    by (by intros []).
  assert (Hrel2 : forall e, is_release e = true -> is_error e = false)
    by (by intros []).
  assert (Hrel3 : forall e, is_release e = true -> is_connected e = false)
    by (by intros []).
  destruct p as [|s0]; [subst lt|injection Hs as ->];
    run; repeat (case_scrutinee; cbn);
    do 3 eexists; (split; [reflexivity|]); cbn; norm_trace;
    (split; [first [reflexivity | exact (eq_sym (app_nil_r _))]|]); cbn;
    rewrite ?count_app, ?count_release_events by done; cbn;
    unfold pump_running; cbn;
    repeat split; try done; try lia.
Qed.

(** What the [catch] block does to a world the [try] block left without
    a pump. *)
Lemma catch_run cfg p st su q n tr e :
  let w2 := mkWorld cfg (mkClient (Some p) None st su false) q n tr in
  exists closing cfg',
    tun_start_catch e w2
    = (Ok tt,
       mkWorld cfg' (mkClient None None st su true) q n
         (tr ++ persist_close :: closing
             ++ [tun_error TUN_SETUP_FAILED e]))
    /\ forallb is_release closing = true
    /\ (p = LongTerm ->
        from_option held None (cfg_tun_persist cfg') = None)
    /\ (forall s, p = ShortTerm s -> cfg' = cfg).
Proof.
  destruct cfg as [dn tq pr gen np fr sts fac lt].
  destruct p as [|s]; [destruct lt as [lt|]|]; run; norm_trace.
  - exists (release_events lt ++ [persist_release]). eexists.
    split; [by rewrite <- app_assoc|].
    rewrite forallb_app, forallb_release_events. by repeat split.
  - exists [persist_release]. eexists. split; [done|]. by repeat split.
  - exists (release_events s ++ [persist_release]). eexists.
    split; [by rewrite <- ?app_assoc|].
    rewrite forallb_app, forallb_release_events. by repeat split.
Qed.
End StartBody.

Section StartSummary.
Variable E : Env.

Lemma count_released p l :
  (forall e, is_release e = true -> p e = false) ->
  forallb is_release l = true -> count p l = 0%nat.
Proof.
  intros Hp. induction l as [|e l IH]; cbn; [done|].
  intros [He Hl]%andb_true_iff. by rewrite (Hp e He), IH.
Qed.

Lemma release_not_establish e : is_release e = true -> is_establish e = false.
Proof. by destruct e. Qed.
Lemma release_not_close e : is_release e = true -> is_store_close e = false.
Proof. by destruct e. Qed.
Lemma release_not_error e : is_release e = true -> is_error e = false.
Proof. by destruct e. Qed.
Lemma release_not_connected e : is_release e = true -> is_connected e = false.
Proof. by destruct e. Qed.

(** Every [tun_start] on a controller without a pump returns; it either
    ends connected, or the [try] block threw and the [catch] block left
    the controller idle with one error reported. *)
Lemma tun_start_summary (w : World) opt tc :
  impl (client w) = None ->
  exists rb wb w' ev,
    tun_start_body E opt tc (exec tun_start_prologue w) = (rb, wb)
    /\ tun_start E opt tc w = (Ok tt, w')
    /\ trace w' = trace w ++ ev
    /\ precedes is_store_close is_establish ev = true
    /\ (count is_establish ev <= 1)%nat
    /\ io_context w' = io_context w
    /\ match rb with
       | Ok _ =>
           Connected w' /\ count is_connected ev = 1%nat
           /\ count is_error ev = 0%nat
       | Throw e =>
           exists pre closing,
             ev = pre ++ persist_close :: closing
                      ++ [tun_error TUN_SETUP_FAILED e]
             /\ trace wb = trace w ++ pre
             /\ count is_error pre = 0%nat
             /\ count is_connected pre = 0%nat
             /\ forallb is_release closing = true
             /\ impl (client w') = None
             /\ tun_persist (client w') = None
             /\ halt (client w') = true
             /\ from_option held None (cfg_tun_persist (config w')) = None
             /\ next_pump w' = next_pump w
       end.
Proof.
  intros Himpl.
  pose proof (current_store_prologue w) as Hcur.
  unfold exec in *. unfold tun_start.
  cbv [mbind M_mbind M_bind gets]; cbn. rewrite Himpl.
  rewrite prologue_run in *; cbn in *. rewrite Himpl in *.
  destruct (body_outcomes E (config w) (start_ptr w) (state (client w))
              (tun_setup (client w)) false (io_context w) (next_pump w)
              (trace w ++ emitted persist_reset w) (start_store w) opt tc
              Hcur)
    as (rb & wb & evb & Hbody & Htr & Hprec & Hest & Herr & Hhalt & Hq
        & Hkind & Hrb).
  unfold try_catch. rewrite Hbody.
  assert (Hpre_e : count is_establish (emitted persist_reset w) = 0%nat)
    by (apply count_persist_reset, release_not_establish).
  assert (Hpre_c : count is_store_close (emitted persist_reset w) = 0%nat)
    by (apply count_persist_reset, release_not_close).
  destruct rb as [[]|e].
  - destruct Hrb as [Hrun Hconn].
    exists (Ok tt), wb, wb, (emitted persist_reset w ++ evb).
    rewrite Htr, <- app_assoc, !count_app, precedes_app_l by done.
    rewrite Hpre_e, Hconn, Herr.
    rewrite (count_persist_reset is_connected), (count_persist_reset is_error)
      by (auto using release_not_connected, release_not_error).
    by repeat split.
  - destruct Hrb as (Hconn & Hnone & Hn).
    destruct wb as [cfgb [pb ib stb sub hb] qb nb trb]; cbn in *.
    subst ib hb qb nb trb.
    unfold same_kind in Hkind; cbn in Hkind.
    destruct pb as [pb|]; [|by destruct (start_ptr w)].
    destruct (catch_run cfgb pb stb sub (io_context w) (next_pump w)
                ((trace w ++ emitted persist_reset w) ++ evb) e)
      as (closing & cfg' & Hcatch & Hclosing & Hlong & Hshort).
    cbn in Hcatch. rewrite Hcatch.
    eexists (Throw e), _, _,
      ((emitted persist_reset w ++ evb)
         ++ persist_close :: closing ++ [tun_error TUN_SETUP_FAILED e]).
    split; [reflexivity|]. split; [reflexivity|]. cbn.
    split; [by rewrite <- !app_assoc|].
    assert (Hclose_e : count is_establish
              (persist_close :: closing ++ [tun_error TUN_SETUP_FAILED e])
            = 0%nat).
    { cbn. rewrite count_app.
      by rewrite (count_released is_establish _ release_not_establish). }
    split.
    { rewrite <- app_assoc, precedes_app_l by done.
      by apply precedes_app_r. }
    split; [rewrite !count_app, Hpre_e, Hclose_e; lia|].
    split; [done|].
    exists (emitted persist_reset w ++ evb), closing.
    rewrite !count_app, Herr, Hconn.
    rewrite (count_persist_reset is_connected), (count_persist_reset is_error)
      by (auto using release_not_connected, release_not_error).
    rewrite <- !app_assoc.
    repeat split; try done.
    unfold start_ptr in Hkind.
    destruct (cfg_tun_persist (config w)) as [lt|] eqn:Hlt, pb as [|sb];
      try done.
    + by apply Hlong.
    + rewrite (Hshort sb eq_refl), Hkind, Hlt. done.
Qed.
End StartSummary.

Section StartFresh.
Variable E : Env.

(** A probe that fails, and every later step succeeding: the whole
    effect of [tun_start]. *)
Lemma tun_start_miss (w : World) opt tc server st1 po sd name :
  let prop := tun_prop (config w) in
  let setup := new_setup_obj (config w) in
  let tsconf := mkSetupConfig (layer prop) (dev_name (config w))
                              (txqueuelen (config w)) true in
  let st' := set_iface_name st1 name in
  let store' :=
    TunPersist_add_destructor
      (TunPersist_persist (TunPersist_close (start_store w)) sd st') setup in
  let id := next_pump w in
  impl (client w) = None ->
  server_endpoint_addr tc = Ok server ->
  use_persisted_tun E (start_store w) server prop opt = Ok false ->
  configure_builder E (state (client w)) server prop opt = (st1, Ok po) ->
  establish E setup po tsconf = Ok (sd, name) ->
  acquire E sd = Ok tt ->
  tun_start E opt tc w
  = (Ok tt,
     mkWorld
       (match cfg_tun_persist (config w) with
        | Some _ => set_cfg_tun_persist (config w) (Some store')
        | None => config w
        end)
       (mkClient
          (Some (match cfg_tun_persist (config w) with
                 | Some _ => LongTerm
                 | None => ShortTerm store'
                 end))
          (Some (mkTun id name true (Some sd) false
                       (Z.to_nat (n_parallel (config w)))))
          st' (Some setup) false)
       (io_context w) (S id)
       (trace w ++ emitted persist_reset w
          ++ [persist_use server prop opt; tun_pre_tun_config; persist_close]
          ++ release_events (start_store w)
          ++ [prop_configure server prop opt;
              setup_establish setup po tsconf]
          ++ (if HAVE_JSON E
                 && generate_tun_builder_capture_event (config w)
              then [tun_event "TUN_BUILDER_CAPTURE" po] else [])
          ++ [persist_save sd st'; persist_add_destructor setup;
              pump_open id sd name;
              pump_start id (n_parallel (config w));
              tun_connected])).
Proof.
  rewrite emitted_persist_reset.
  full_world w; cbn. intros -> Hsrv Hmiss Hcfg Hest Hacq.
  unfold start_store, new_setup_obj in *; cbn in *.
  destruct lt as [lt|], tp as [[|tp]|]; run;
    rewrite Hsrv; run; rewrite ?Hmiss; run; rewrite Hcfg; run;
    unfold new_setup_obj; cbn; rewrite Hest; run;
    destruct (HAVE_JSON E && gen); run;
    rewrite Hacq; run; norm_trace; rewrite ?app_nil_r; done.
Qed.
End StartFresh.

Section StartClaims.
Variable E : Env.




(** C5: when the [try] block of [tun_start] throws, the exception goes no
    further: the store is closed, the controller is stopped and left
    idle, [tun_error] is called once, last, with [TUN_SETUP_FAILED] and
    the exception's message, [tun_connected] is not called, and the
    device setup is not called again. *)
Theorem setup_failure_reported (w : World) opt tc e :
  impl (client w) = None ->
  outcome (tun_start_body E opt tc) (exec tun_start_prologue w) = Throw e ->
  let w' := exec (tun_start E opt tc) w in
  let ev := emitted (tun_start E opt tc) w in
  outcome (tun_start E opt tc) w = Ok tt
  /\ (exists pre closing,
         ev = pre ++ persist_close :: closing
                  ++ [tun_error TUN_SETUP_FAILED e]
         /\ trace (exec (tun_start_body E opt tc)
                        (exec tun_start_prologue w)) = trace w ++ pre
         /\ count is_error pre = 0%nat
         /\ count is_connected pre = 0%nat
         /\ forallb is_release closing = true)
  /\ count is_error ev = 1%nat
  /\ count is_connected ev = 0%nat
  /\ (count is_establish ev <= 1)%nat
  /\ Idle w'
  /\ impl (client w') = None
  /\ halt (client w') = true
  /\ from_option held None (cfg_tun_persist (config w')) = None.
Proof.
  intros Himpl Hthrow w' ev.
  destruct (tun_start_summary E w opt tc Himpl)
    as (rb & wb & w1 & ev1 & Hbody & Hrun & Htr & _ & Hest & _ & Hrb).
  unfold outcome in Hthrow. rewrite Hbody in Hthrow. cbn in Hthrow.
  subst rb.
  destruct Hrb as (pre & closing & Hev & Hpre & Herr & Hconn & Hrel
                   & Hnone & Hptr & Hhalt & Hheld & _).
  assert (Hev1 : ev = ev1).
  { apply emitted_app. unfold exec. by rewrite Hrun. }
  subst w' ev. unfold outcome, exec, Idle, pump_running in *.
  rewrite Hrun, Hbody; cbn. rewrite Hnone. subst ev1.
  split; [done|]. split.
  { exists pre, closing. by repeat split. }
  rewrite Hev1, !count_app. cbn. rewrite !count_app. cbn.
  rewrite (count_released is_error _ release_not_error Hrel).
  rewrite (count_released is_connected _ release_not_connected Hrel).
  rewrite Herr, Hconn. rewrite count_app in Hest. cbn in Hest.
  rewrite count_app in Hest. cbn in Hest.
  repeat split; try done; lia.
Qed.
End StartClaims.

Section IdleClaims.
Variable E : Env.

Lemma tun_start_noop (w : World) opt tc t :
  impl (client w) = Some t -> tun_start E opt tc w = (Ok tt, w).
Proof. intros H. unfold tun_start. unfold_monad. by rewrite H. Qed.

Lemma stop_without_pump (w : World) :
  impl (client w) = None ->
  impl (client (exec stop w)) = None
  /\ state (client (exec stop w)) = state (client w).
Proof.
  full_world w; cbn. intros ->.
  destruct h, tp as [[|tp]|]; run; done.
Qed.

Lemma tun_send_without_pump (w : World) buf :
  impl (client w) = None -> tun_send E buf w = (Ok false, w).
Proof. intros H. unfold tun_send, send. unfold_monad. by rewrite H. Qed.

(** A [tun_start] that made no [tun_connected] call left no pump. *)
Lemma failed_start_without_pump (w : World) opt tc :
  impl (client w) = None ->
  count is_connected (emitted (tun_start E opt tc) w) = 0%nat ->
  impl (client (exec (tun_start E opt tc) w)) = None.
Proof.
  intros Himpl Hcount.
  destruct (tun_start_summary E w opt tc Himpl)
    as (rb & wb & w' & ev & _ & Hrun & Htr & _ & _ & _ & Hrb).
  rewrite (emitted_app (tun_start E opt tc) w ev) in Hcount
    by (unfold exec; by rewrite Hrun).
  unfold exec. rewrite Hrun. cbn.
  destruct rb as [[]|e].
  - destruct Hrb as (_ & Hone & _). lia.
  - by destruct Hrb as (pre & closing & _ & _ & _ & _ & _ & Hnone & _).
Qed.

Lemma idle_before_start_inv a (w : World) :
  idle_before_start E a w ->
  impl (client w) = None /\ (a = false -> state (client w) = new_State).
Proof.
  induction 1 as [cfg q n tr|a w _ [IHi IHs]|a w buf _ [IHi IHs]
                  |a w _ [IHi IHs]|a w opt tc _ [IHi IHs] Hcount].
  - done.
  - destruct (stop_without_pump w IHi) as [Hi Hs].
    split; [done|]. intros Ha. rewrite Hs. auto.
  - unfold exec. by rewrite tun_send_without_pump.
  - done.
  - split; [by apply failed_start_without_pump | done].
Qed.

(** C7: before any [tun_start] has succeeded [tun_name] is the
    "UNDEF_TUN" sentinel, every address and gateway accessor is the
    empty string when the address is unspecified, and as long as no
    [tun_start] was attempted all four are the empty string and the MTU
    is 0. *)
Theorem idle_accessors a (w : World) :
  idle_before_start E a w ->
  tun_name (client w) = "UNDEF_TUN"%string
  /\ (IP.specified (vpn_ip4_addr (state (client w))) = false ->
      vpn_ip4 (client w) = ""%string)
  /\ (IP.specified (vpn_ip6_addr (state (client w))) = false ->
      vpn_ip6 (client w) = ""%string)
  /\ (IP.specified (vpn_ip4_gw (state (client w))) = false ->
      vpn_gw4 (client w) = ""%string)
  /\ (IP.specified (vpn_ip6_gw (state (client w))) = false ->
      vpn_gw6 (client w) = ""%string)
  /\ (a = false ->
      vpn_ip4 (client w) = ""%string /\ vpn_ip6 (client w) = ""%string
      /\ vpn_gw4 (client w) = ""%string /\ vpn_gw6 (client w) = ""%string
      /\ vpn_mtu (client w) = 0).
Proof.
  intros Hidle. destruct (idle_before_start_inv a w Hidle) as [Hi Hs].
  unfold tun_name, vpn_ip4, vpn_ip6, vpn_gw4, vpn_gw6, vpn_mtu.
  rewrite Hi. split; [done|].
  repeat split; try (by intros ->).
  all: by rewrite Hs.
Qed.

(** C8: [tun_send] is the pump's [write] when a pump exists, and with no
    pump it returns false, without throwing and leaving everything as it
    was. *)
Theorem tun_send_delegates (w : World) buf :
  (impl (client w) = None -> tun_send E buf w = (Ok false, w))
  /\ (forall t, impl (client w) = Some t ->
                tun_send E buf w = Tun_write E t buf w)
  /\ (forall t sd,
         impl (client w) = Some t -> tun_halt t = false ->
         stream t = Some sd ->
         outcome (tun_send E buf) w = Ok (stream_write E sd buf)
         /\ emitted (tun_send E buf) w = [pump_write (pump_id t) buf]).
Proof.
  split; [apply tun_send_without_pump|].
  split.
  - intros t Ht. unfold tun_send, send. unfold_monad. by rewrite Ht.
  - intros t sd Ht Hh Hs. unfold emitted, outcome, tun_send, send.
    unfold_monad. rewrite Ht. unfold Tun_write. rewrite Hh, Hs.
    unfold_monad. norm_world. cbn. by rewrite drop_app_length.
Qed.
End IdleClaims.

Section PushUpdate.
Variable E : Env.

Lemma handle_read_spec id packet (w : World) :
  exists w1, handle_read id packet w = (Ok tt, w1)
             /\ io_context w1 = io_context w.
Proof.
  full_world w. unfold handle_read, tun_read_handler, tun_error_handler.
  destruct i as [t|]; run; [|by eexists].
  destruct (_ && _); run; [|by eexists].
  destruct packet as [buf|e]; run; [destruct (_ =? _); run|]; by eexists.
Qed.

(** A handler never adds to the queue it was taken from. *)
Lemma run_task_spec t (w : World) :
  exists w1, run_task E t w = (Ok tt, w1) /\ io_context w1 = io_context w.
Proof.
  destruct t as [id packet|opt tc]; cbn.
  - destruct (handle_read_spec id packet w) as (w1 & Hrun & Hq).
    unfold_monad. rewrite Hrun. norm_world. eexists. split; [done|].
    by destruct w1.
  - destruct (impl (client w)) as [t|] eqn:Himpl.
    + rewrite (tun_start_noop E w opt tc t Himpl). by eexists.
    + destruct (tun_start_summary E w opt tc Himpl)
        as (rb & wb & w' & ev & _ & Hrun & _ & _ & _ & Hq & _).
      rewrite Hrun. by eexists.
Qed.

Lemma run_one_spec (w : World) :
  exists w1, run_one E w = (Ok tt, w1)
             /\ io_context w1 = tail (io_context w).
Proof.
  unfold run_one. unfold_monad.
  destruct (io_context w) as [|t q] eqn:Hqueue.
  - exists w. by rewrite Hqueue.
  - destruct (run_task_spec t (with_io_context w q)) as (w1 & Hrun & Hq).
    rewrite Hrun. exists w1. split; [done|]. rewrite Hq. by destruct w.
Qed.

(** The loop takes the handlers off the queue oldest first. *)
Lemma run_n_spec k (w : World) :
  exists w1, run_n E k w = (Ok tt, w1)
             /\ io_context w1 = drop k (io_context w).
Proof.
  revert w. induction k as [|k IH]; intros w; cbn.
  - exists w. by rewrite drop_0.
  - destruct (run_one_spec w) as (w1 & Hone & Hq1).
    destruct (IH w1) as (w2 & Hn & Hq2).
    unfold_monad. rewrite Hone, Hn. exists w2. split; [done|].
    rewrite Hq2, Hq1. destruct (io_context w); cbn; by rewrite ?drop_nil.
Qed.

Lemma establishment_not_release e :
  is_release e = true -> is_establishment e = false.
Proof. by destruct e. Qed.

(** What [apply_push_update] itself does. *)
Lemma apply_push_update_run (w : World) opt tc :
  exists w' ev,
    apply_push_update opt tc w = (Ok tt, w')
    /\ trace w' = trace w ++ ev
    /\ count is_establishment ev = 0%nat
    /\ impl (client w') = None
    /\ io_context w'
       = io_context w ++ aborted_reads (client w) ++ [PostedStart opt tc].
Proof.
  pose proof establishment_not_release as Hrel.
  full_world w. unfold apply_push_update, aborted_reads.
  destruct h, i as [[id nm rs sm [|] rd]|], tp as [[|tp]|]; run; norm_trace;
    eexists _, _; (split; [reflexivity|]); cbn;
    (split; [first [reflexivity | exact (eq_sym (app_nil_r _))]|]);
    cbn; rewrite ?count_release_events by done;
    rewrite <- ?app_assoc, ?app_nil_r; done.
Qed.

Lemma run_n_add a b (w : World) :
  run_n E (a + b) w = run_n E b (exec (run_n E a) w).
Proof.
  revert w. induction a as [|a IH]; intros w; [done|].
  cbn [Nat.add run_n]. unfold exec. unfold_monad.
  destruct (run_one_spec w) as (w1 & Hone & _). rewrite Hone.
  rewrite IH. unfold exec.
  by destruct (run_n E a w1) as [[[]|e] w2].
Qed.

Lemma count_callbacks p (l : list Task) :
  (forall id, p (pump_callback id) = false) ->
  count p (concat (callback_of <$> l)) = 0%nat.
Proof.
  intros Hp. induction l as [|[id pk|o t] l IH]; cbn; [done| |done].
  by rewrite Hp, IH.
Qed.

(** With no pump held, the handlers of completed reads run off the queue
    and pass nothing on: each only returns. *)
Lemma run_read_done_without_pump (l q : list Task) (w : World) :
  impl (client w) = None ->
  io_context w = l ++ q ->
  forallb is_read_done l = true ->
  run_n E (length l) w
  = (Ok tt, mkWorld (config w) (client w) q (next_pump w)
                    (trace w ++ concat (callback_of <$> l))).
Proof.
  revert w. induction l as [|t l IH]; intros w Himpl Hq Hall.
  - cbn in *. rewrite app_nil_r. destruct w; cbn in *. by subst.
  - cbn in Hall. apply andb_true_iff in Hall as [Ht Hall].
    destruct t as [id pk|]; [|done].
    destruct w as [cfg [tp i st su h] q0 n tr]; cbn in Himpl, Hq; subst.
    cbn [length run_n]. unfold run_one, run_task, handle_read.
    unfold_monad. norm_world. cbn [app].
    rewrite (IH (mkWorld cfg (mkClient tp None st su h) (l ++ q) n
                         (tr ++ [pump_callback id]))) by done.
    cbn. by rewrite <- app_assoc.
Qed.

(** What [apply_push_update] leaves behind. *)
Lemma apply_push_update_effect (w : World) opt tc :
  exists ev tp h,
    apply_push_update opt tc w
    = (Ok tt,
       mkWorld (config w)
         (mkClient tp None (state (client w)) (tun_setup (client w)) h)
         (io_context w ++ aborted_reads (client w) ++ [PostedStart opt tc])
         (next_pump w) (trace w ++ ev))
    /\ count is_establish ev = 0%nat
    /\ count is_recv ev = 0%nat
    /\ count is_connected ev = 0%nat
    /\ (tun_persist (client w) = Some LongTerm ->
        count is_fd_closed ev = 0%nat)
    /\ (tp = None \/ tp = tun_persist (client w))
    /\ h = true
    /\ (halt (client w) = false -> tp = None)
    /\ (halt (client w) = true -> tp = tun_persist (client w))
    /\ ev = match impl (client w) with
            | Some t => if tun_halt t then [] else [pump_stop (pump_id t)]
            | None => []
            end
            ++ (if halt (client w) then []
                else match tun_persist (client w) with
                     | Some LongTerm => [persist_release]
                     | Some (ShortTerm tp) =>
                         persist_release :: release_events tp
                     | None => []
                     end).
Proof.
  assert (H1 : forall e, is_release e = true -> is_establish e = false)
    by (by intros []).
  assert (H2 : forall e, is_release e = true -> is_recv e = false)
    by (by intros []).
  assert (H3 : forall e, is_release e = true -> is_connected e = false)
    by (by intros []).
  full_world w. unfold apply_push_update, aborted_reads.
  destruct h, i as [[id nm rs sm [|] rd]|], tp as [[|tp]|]; run; norm_trace;
    first [ eexists [], _, _; split; [by rewrite ?app_nil_r|]
          | eexists _, _, _; split; [rewrite <- ?app_assoc; reflexivity|] ];
    cbn; rewrite ?count_release_events by done;
    split_and!; try done; first [by left | by right].
Qed.

Lemma forallb_take {A} (p : A -> bool) (l : list A) k :
  forallb p l = true -> forallb p (take k l) = true.
Proof.
  revert k. induction l as [|x l IH]; intros [|k]; cbn; try done.
  intros [Hx Hl]%andb_true_iff. by rewrite Hx, IH.
Qed.

Lemma aborted_reads_are_reads (c : Client) :
  forallb is_read_done (aborted_reads c) = true.
Proof.
  unfold aborted_reads. destruct (impl c) as [t|]; [|done].
  destruct (tun_halt t); [done|]. by induction (reads t).
Qed.

(** C4: [apply_push_update] first does what [stop] does: the controller
    ends halted, without pump and, if it was not halted before, without
    store reference, having made the calls of a stop and none of the
    establishment path.  Only then it puts the start behind every handler
    then waiting, the handlers of the reads the stop cancelled included;
    the loop runs all of those, oldest first, and only its next step runs
    [tun_start].  When no start posted earlier is among the waiting
    handlers, nothing happens until then but the callbacks of those
    handlers: no pump exists, no call of the establishment path is made
    and no packet is passed on. *)
Theorem push_update_defers_start (w : World) opt tc :
  let w' := exec (apply_push_update opt tc) w in
  let pending := io_context w ++ aborted_reads (client w) in
  outcome (apply_push_update opt tc) w = Ok tt
  /\ count is_establishment (emitted (apply_push_update opt tc) w) = 0%nat
  /\ pump_running (client w') = false
  /\ io_context w' = pending ++ [PostedStart opt tc]
  /\ (forall k, (k <= length pending)%nat ->
                outcome (run_n E k) w' = Ok tt
                /\ io_context (exec (run_n E k) w')
                   = drop k pending ++ [PostedStart opt tc])
  /\ exec (run_one E) (exec (run_n E (length pending)) w')
     = exec (tun_start E opt tc)
            (with_io_context (exec (run_n E (length pending)) w') [])
  /\ halt (client w') = true
  /\ impl (client w') = None
  /\ (halt (client w) = false -> tun_persist (client w') = None)
  /\ config w' = config w
  /\ state (client w') = state (client w)
  /\ emitted (apply_push_update opt tc) w
     = match impl (client w) with
       | Some t => if tun_halt t then [] else [pump_stop (pump_id t)]
       | None => []
       end
       ++ (if halt (client w) then []
           else match tun_persist (client w) with
                | Some LongTerm => [persist_release]
                | Some (ShortTerm tp) => persist_release :: release_events tp
                | None => []
                end)
  /\ (forallb is_read_done (io_context w) = true ->
      forall k, (k <= length pending)%nat ->
                let wk := exec (run_n E k) w' in
                let ev := drop (length (trace w')) (trace wk) in
                client wk = client w'
                /\ config wk = config w
                /\ ev = concat (callback_of <$> take k pending)
                /\ count is_establishment ev = 0%nat
                /\ count is_recv ev = 0%nat).
Proof.
  intros w' pending.
  destruct (apply_push_update_run w opt tc)
    as (w1 & ev & Hrun & Htr & Hcount & Himpl & Hq).
  assert (Hw' : w' = w1) by (subst w'; unfold exec; by rewrite Hrun).
  assert (Hem : emitted (apply_push_update opt tc) w = ev)
    by (apply emitted_app; unfold exec; by rewrite Hrun).
  rewrite Hem.
  assert (Hq' : io_context w1 = pending ++ [PostedStart opt tc])
    by (subst pending; by rewrite <- app_assoc).
  assert (Hsteps : forall k, (k <= length pending)%nat ->
            (run_n E k w1).1 = Ok tt
            /\ io_context (exec (run_n E k) w1)
               = drop k pending ++ [PostedStart opt tc]).
  { intros k Hk. destruct (run_n_spec k w1) as (w2 & Hn & Hq2).
    unfold exec. rewrite Hn. cbn. split; [done|].
    rewrite Hq2, Hq'. by rewrite drop_app_le. }
  assert (Hnext : exec (run_one E) (exec (run_n E (length pending)) w1)
                  = exec (tun_start E opt tc)
                      (with_io_context
                         (exec (run_n E (length pending)) w1) [])).
  { destruct (Hsteps (length pending) (le_n _)) as [_ Hlast].
    rewrite drop_all in Hlast. cbn in Hlast.
    set (w2 := exec (run_n E (length pending)) w1) in *.
    unfold exec at 1. unfold run_one.
    cbv [mbind M_mbind M_bind gets modify]. rewrite Hlast. reflexivity. }
  destruct (apply_push_update_effect w opt tc)
    as (ev' & tp & h & Hrun' & _ & Hrecv & _ & _ & _ & -> & Hlive & _ & Hev).
  rewrite Hrun in Hrun'. injection Hrun' as Hw1.
  assert (Hev' : ev' = ev).
  { rewrite Hw1 in Htr. cbn in Htr. by apply app_inv_head in Htr. }
  subst ev'.
  unfold outcome, pump_running. rewrite Hw', Hrun, Himpl. cbn [fst].
  split_and!; try done; try (by apply Hsteps); try (by rewrite Hw1).
  intros Hreads k Hk.
  assert (Hpending : forallb is_read_done pending = true).
  { subst pending. by rewrite forallb_app, Hreads, aborted_reads_are_reads. }
  pose proof (run_read_done_without_pump (take k pending)
                (drop k pending ++ [PostedStart opt tc]) w1 Himpl) as Hloop.
  rewrite length_take_le in Hloop by done.
  rewrite app_assoc, take_drop in Hloop.
  specialize (Hloop Hq' (forallb_take _ _ k Hpending)).
  unfold exec. rewrite Hloop. cbn.
  rewrite drop_app_length.
  rewrite !count_callbacks by done.
  split_and!; try done. by rewrite Hw1.
Qed.
End PushUpdate.

Section Reconnect.
Variable E : Env.

End Reconnect.

Section ThrowingSteps.
Variable E : Env.

(** The steps whose exception makes the [try] block of [tun_start]
    throw: the transport's address, the probe of the store, the property
    derivation, the device setup, and the store taking the descriptor. *)
Lemma try_block_throws (w : World) opt tc e :
  impl (client w) = None ->
  let body := outcome (tun_start_body E opt tc) (exec tun_start_prologue w) in
  let prop := tun_prop (config w) in
  let setup := new_setup_obj (config w) in
  let tsconf := mkSetupConfig (layer prop) (dev_name (config w))
                              (txqueuelen (config w)) true in
  (server_endpoint_addr tc = Throw e -> body = Throw e)
  /\ (forall server,
         server_endpoint_addr tc = Ok server ->
         (use_persisted_tun E (start_store w) server prop opt = Throw e ->
          body = Throw e)
         /\ (forall st1,
                use_persisted_tun E (start_store w) server prop opt
                = Ok false ->
                (configure_builder E (state (client w)) server prop opt
                 = (st1, Throw e) -> body = Throw e)
                /\ (forall po,
                       configure_builder E (state (client w)) server prop opt
                       = (st1, Ok po) ->
                       (establish E setup po tsconf = Throw e ->
                        body = Throw e)
                       /\ (forall sd name,
                              establish E setup po tsconf = Ok (sd, name) ->
                              acquire E sd = Throw e -> body = Throw e)))).
Proof.
  intros Himpl body prop setup tsconf. subst body prop setup tsconf.
  unfold outcome, exec. rewrite prologue_run.
  full_world w; cbn in *. subst i.
  unfold start_store, start_ptr, new_setup_obj; cbn.
  split; [|intros server Hsrv; split;
           [|intros st1 Hmiss; split;
             [|intros po Hcfg; split; [|intros sd name Hest]]]];
    intros Hthrow; destruct lt as [lt|]; run;
    rewrite ?Hsrv; run; rewrite ?Hmiss, ?Hthrow; run;
    rewrite ?Hcfg, ?Hthrow; run;
    unfold new_setup_obj; cbn; rewrite ?Hest, ?Hthrow; run;
    try destruct (HAVE_JSON E && gen); run; rewrite ?Hthrow; run;
    try done; try discriminate.
Qed.
End ThrowingSteps.

(** ** The concrete setting *)

Import Demo.


(** C7 as stated fails on the code: a [tun_start] whose device setup
    throws leaves the controller idle, never connected, with the address the
    property derivation had already written into the Session State. *)
Lemma failed_start_keeps_derived_address :
  let w := exec (tun_start demo_env [] transport) (new_world bad_config) in
  idle_before_start demo_env true w
  /\ count is_connected (trace w) = 0%nat
  /\ pump_running (client w) = false
  /\ tun_name (client w) = "UNDEF_TUN"%string
  /\ vpn_ip4 (client w) = "10.8.0.2"%string
  /\ vpn_gw4 (client w) = "203.0.113.9"%string.
Proof.
  split.
  - apply (idle_failed_start demo_env false (new_world bad_config));
      [apply idle_new | reflexivity].
  - vm_compute. by repeat split.
Qed.




Lemma setup_failure_reported_witness :
  outcome (tun_start_body demo_env [] transport)
          (exec tun_start_prologue (new_world bad_config))
  = Throw "cannot open tun"
  /\ count is_error (emitted (tun_start demo_env [] transport)
                             (new_world bad_config)) = 1%nat
  /\ count is_connected (emitted (tun_start demo_env [] transport)
                                 (new_world bad_config)) = 0%nat
  /\ Idle (exec (tun_start demo_env [] transport) (new_world bad_config)).
Proof.
  split; [reflexivity|].
  destruct (setup_failure_reported demo_env (new_world bad_config) []
              transport "cannot open tun" eq_refl eq_refl)
    as (_ & _ & Herr & Hconn & _ & Hidle & _).
  repeat split; try assumption; apply Hidle.
Defined.


Lemma idle_accessors_witness :
  idle_before_start demo_env false (exec stop (new_world new_obj))
  /\ tun_name (client (exec stop (new_world new_obj))) = "UNDEF_TUN"%string
  /\ vpn_ip4 (client (exec stop (new_world new_obj))) = ""%string
  /\ vpn_mtu (client (exec stop (new_world new_obj))) = 0.
Proof.
  assert (H : idle_before_start demo_env false (exec stop (new_world new_obj)))
    by (apply idle_stop, idle_new).
  split; [exact H|].
  destruct (idle_accessors demo_env false _ H) as (Hname & _ & _ & _ & _ & Hall).
  destruct (Hall eq_refl) as (H4 & _ & _ & _ & Hmtu).
  repeat split; assumption.
Defined.

Lemma tun_send_delegates_witness :
  impl (client (new_world new_obj)) = None
  /\ tun_send demo_env packet (new_world new_obj)
     = (Ok false, new_world new_obj).
Proof.
  split; [reflexivity|].
  destruct (tun_send_delegates demo_env (new_world new_obj) packet)
    as (Hnone & _).
  exact (Hnone eq_refl).
Defined.

(** C9 as stated fails on the code: a "dev" option that has no argument
    exists, the device name is empty, and yet [load] does not fill the
    name; it throws, with the default MTU already assigned. *)
Lemma load_throws_on_dev_without_argument :
  dev_name new_obj = ""%string
  /\ demo_get_ptr [["dev"]] "dev" = Some ["dev"]
  /\ fst (load demo_env new_obj [["dev"]])
     = Throw "option_error: missing argument"
  /\ dev_name (snd (load demo_env new_obj [["dev"]])) = ""%string
  /\ prop_mtu (tun_prop (snd (load demo_env new_obj [["dev"]]))) = 1500.
Proof. vm_compute. by repeat split. Qed.

Lemma load_assigns_mtu_and_dev_name_witness :
  fst (load demo_env new_obj [["dev"; "tun7"]]) = Ok tt
  /\ prop_mtu (tun_prop (snd (load demo_env new_obj [["dev"; "tun7"]])))
     = 1500
  /\ dev_name (snd (load demo_env new_obj [["dev"; "tun7"]])) = "tun7"%string.
Proof.
  destruct (load_assigns_mtu_and_dev_name demo_env new_obj [["dev"; "tun7"]])
    as (_ & Hmtu & _ & _ & Hdev).
  destruct (Hdev eq_refl) as (Hret & Hname).
  split; [exact Hret|]. split; [exact (Hmtu eq_refl) | exact Hname].
Defined.

(** C4 as stated fails on the code: when a start posted by an earlier
    push update is still waiting, it is that start which runs the
    establishment path, while the eight reads cancelled by the stop of this
    push update still wait for their handlers. *)
Lemma earlier_posted_start_runs_before_cancelled_reads :
  let w := exec (tun_start demo_env [] transport;;
                 apply_push_update [] transport;;
                 tun_start demo_env [] transport) (new_world new_obj) in
  let w' := exec (apply_push_update [] transport) w in
  let w9 := exec (run_n demo_env 9) w' in
  aborted_reads (client w)
  = replicate 8 (ReadDone 1 (Throw "operation_aborted"))
  /\ count is_establish (drop (length (trace w')) (trace w9)) = 1%nat
  /\ pump_running (client w9) = true
  /\ io_context w9
     = replicate 8 (ReadDone 1 (Throw "operation_aborted"))
       ++ [PostedStart [] transport].
Proof. vm_compute. by repeat split. Qed.

Lemma push_update_defers_start_witness :
  let w := exec (tun_start demo_env [] transport) (new_world new_obj) in
  let w' := exec (apply_push_update [] transport) w in
  length (io_context w') = 9%nat
  /\ io_context (exec (run_n demo_env 8) w') = [PostedStart [] transport]
  /\ halt (client w') = true
  /\ tun_persist (client w') = None
  /\ forallb is_read_done (io_context w) = true
  /\ count is_establishment
       (drop (length (trace w')) (trace (exec (run_n demo_env 8) w')))
     = 0%nat.
Proof.
  destruct (push_update_defers_start demo_env
              (exec (tun_start demo_env [] transport) (new_world new_obj))
              [] transport)
    as (_ & _ & _ & Hq & Hsteps & _ & Hhalt & _ & Hstore & _ & _ & _ & Hquiet).
  split; [by rewrite Hq|].
  split; [exact (proj2 (Hsteps 8%nat (le_n 8)))|].
  split; [exact Hhalt|]. split; [exact (Hstore eq_refl)|].
  split; [reflexivity|].
  destruct (Hquiet eq_refl 8%nat (le_n 8)) as (_ & _ & _ & Hnone & _).
  exact Hnone.
Defined.

Lemma SafeString_round_trip_witness :
  std_length "tun0" < size_t_max
  /\ exists ss, SafeString_of_string dots "tun0" = Ok ss
                /\ to_string ss = "tun0"%string
                /\ SafeString_length ss = std_length "tun0".
Proof.
  split; [reflexivity|].
  apply (SafeString_round_trip dots "tun0"). reflexivity.
Defined.

(** * Further properties of the controller *)

Section ControllerInvariant.
Variable E : Env.

(** [tun_start] on a controller without a pump ends in a world that
    satisfies [controller_inv]. *)
Lemma tun_start_inv (w : World) opt tc :
  impl (client w) = None ->
  controller_inv (exec (tun_start E opt tc) w).
Proof.
  intros Himpl.
  pose proof (current_store_prologue w) as Hcur.
  unfold exec in *. unfold tun_start.
  cbv [mbind M_mbind M_bind gets]; cbn. rewrite Himpl.
  rewrite prologue_run in *; cbn in *. rewrite Himpl in *.
  destruct (body_outcomes E (config w) (start_ptr w) (state (client w))
              (tun_setup (client w)) false (io_context w) (next_pump w)
              (trace w ++ emitted persist_reset w) (start_store w) opt tc
              Hcur)
    as (rb & wb & evb & Hbody & _ & _ & _ & _ & Hhalt & Hq & Hkind & Hrb).
  unfold try_catch. rewrite Hbody. unfold controller_inv.
  destruct rb as [[]|e]; cbn.
  - destruct Hrb as [Hrun _]. unfold same_kind in Hkind.
    destruct (tun_persist (client wb)) as [pb|];
      [done | by destruct (start_ptr w)].
  - destruct Hrb as (_ & Hnone & Hn).
    destruct wb as [cfgb [pb ib stb sub hb] qb nb trb]; cbn in *.
    subst ib hb qb nb.
    unfold same_kind in Hkind; cbn in Hkind.
    destruct pb as [pb|]; [|by destruct (start_ptr w)].
    destruct (catch_run cfgb pb stb sub (io_context w) (next_pump w) trb e)
      as (closing & cfg' & Hcatch & _).
    cbn in Hcatch. by rewrite Hcatch.
Qed.

Lemma stop_inv (w : World) : controller_inv w -> controller_inv (exec stop w).
Proof.
  unfold controller_inv, pump_running.
  full_world w; cbn.
  destruct h, i as [[id nm rs sm [|] rd]|], tp as [[|tp]|]; run;
    intuition congruence.
Qed.

Lemma apply_push_update_inv (w : World) opt tc :
  controller_inv w -> controller_inv (exec (apply_push_update opt tc) w).
Proof.
  unfold controller_inv, pump_running, apply_push_update.
  full_world w; cbn.
  destruct h, i as [[id nm rs sm [|] rd]|], tp as [[|tp]|]; run;
    intuition congruence.
Qed.

Lemma tun_send_inv (w : World) buf :
  controller_inv w -> controller_inv (exec (tun_send E buf) w).
Proof.
  unfold controller_inv, pump_running, tun_send, send, Tun_write.
  full_world w; cbn.
  destruct i as [[id nm rs [sd|] [|] rd]|]; run; done.
Qed.

Lemma read_completes_inv (w : World) packet :
  controller_inv w -> controller_inv (exec (read_completes packet) w).
Proof.
  unfold controller_inv, pump_running, read_completes.
  full_world w; cbn.
  destruct i as [[id nm rs sm [|] [|rd]]|]; run; done.
Qed.

Lemma handle_read_inv id packet (w : World) :
  controller_inv w -> controller_inv (exec (handle_read id packet) w).
Proof.
  unfold controller_inv, pump_running, handle_read, tun_read_handler,
    tun_error_handler.
  full_world w; cbn.
  destruct i as [[id' nm rs sm hl rd]|]; run; [|done].
  destruct (_ && _); run; [|done].
  destruct packet as [buf|e]; run; [destruct (_ =? _); run|]; done.
Qed.

Lemma tun_start_inv_any (w : World) opt tc :
  controller_inv w -> controller_inv (exec (tun_start E opt tc) w).
Proof.
  intros Hinv. destruct (impl (client w)) as [t|] eqn:Himpl.
  - unfold exec. by rewrite (tun_start_noop E w opt tc t Himpl).
  - by apply tun_start_inv.
Qed.

Lemma run_one_inv (w : World) :
  controller_inv w -> controller_inv (exec (run_one E) w).
Proof.
  intros Hinv. unfold run_one, exec. unfold_monad.
  destruct (io_context w) as [|t q] eqn:Hq; [done|].
  assert (Hinv' : controller_inv (with_io_context w q)) by (by destruct w).
  destruct t as [id packet|opt tc]; cbn.
  - pose proof (handle_read_inv id packet _ Hinv') as H.
    destruct (handle_read_spec id packet (with_io_context w q))
      as (w1 & Hrun & _).
    unfold exec in H. unfold_monad. rewrite Hrun in *. cbn in *.
    by destruct w1.
  - apply (tun_start_inv_any _ opt tc Hinv').
Qed.

(** X2: in every world a controller can reach, it references a
    persistence store exactly while its pump runs, it is not halted
    then, and a controller without a pump references no store. *)
Theorem store_referenced_while_connected (w : World) :
  reachable E w ->
  (Connected w <-> tun_persist (client w) <> None)
  /\ (Connected w -> halt (client w) = false)
  /\ (halt (client w) = true -> tun_persist (client w) = None)
  /\ (impl (client w) = None -> tun_persist (client w) = None).
Proof.
  intros Hreach.
  assert (Hinv : controller_inv w).
  { induction Hreach as [cfg|w opt tc _ IH|w _ IH|w opt tc _ IH|w buf _ IH
                         |w _ IH|w packet _ IH|w _ IH].
    - done.
    - by apply tun_start_inv_any.
    - by apply stop_inv.
    - by apply apply_push_update_inv.
    - by apply tun_send_inv.
    - done.
    - by apply read_completes_inv.
    - by apply run_one_inv. }
  unfold controller_inv, Connected, pump_running in *.
  destruct (tun_persist (client w)) as [p|], (impl (client w)) as [t|];
    cbn in *; intuition congruence.
Qed.
End ControllerInvariant.

Section StartReports.
Variable E : Env.

Lemma tun_start_unfold (w : World) opt tc :
  impl (client w) = None ->
  tun_start E opt tc w
  = try_catch (tun_start_body E opt tc) tun_start_catch
              (exec tun_start_prologue w).
Proof.
  intros Himpl. unfold tun_start, exec.
  cbv [mbind M_mbind M_bind gets]. rewrite Himpl.
  by rewrite prologue_run.
Qed.

(** A [try] block that returns has called [tun_connected] last. *)
Lemma body_ends_connected (w1 wb : World) opt tc u :
  tun_start_body E opt tc w1 = (Ok u, wb) ->
  last (trace wb) = Some tun_connected.
Proof.
  unfold tun_start_body. cbv [mbind M_mbind M_bind]. intros Hbody.
  repeat match type of Hbody with
         | match ?m with _ => _ end = _ =>
             destruct m as [[?|?] ?] eqn:?; try discriminate
         end.
  unfold emit, modify in Hbody. injection Hbody as _ <-.
  cbn. apply last_snoc.
Qed.

(** X1: whichever of the steps of the [try] block throw or return (the
    transport's address, the probe of the store, the property derivation,
    the device setup, the store taking the descriptor), [tun_start]
    returns, provided the calls into the parent and the pump and the
    store's [close] return, as they do throughout this model.  On a
    controller that holds a pump it does nothing at all; otherwise it
    then reports to the parent once: [tun_connected], as its last call,
    and the pump runs, or [tun_error], as its last call, and no pump
    runs. *)
Theorem tun_start_reports_once (w : World) opt tc :
  let w' := exec (tun_start E opt tc) w in
  let ev := emitted (tun_start E opt tc) w in
  outcome (tun_start E opt tc) w = Ok tt
  /\ match impl (client w) with
     | Some _ => w' = w
     | None =>
         (pump_running (client w') = true
          /\ count is_connected ev = 1%nat /\ count is_error ev = 0%nat
          /\ last ev = Some tun_connected)
         \/ (pump_running (client w') = false
             /\ count is_connected ev = 0%nat /\ count is_error ev = 1%nat
             /\ exists e, last ev = Some (tun_error TUN_SETUP_FAILED e))
     end.
Proof.
  intros w' ev. subst w' ev. unfold outcome, exec.
  destruct (impl (client w)) as [t|] eqn:Himpl.
  - by rewrite (tun_start_noop E w opt tc t Himpl).
  - destruct (tun_start_summary E w opt tc Himpl)
      as (rb & wb & w' & ev & Hbody & Hrun & Htr & _ & _ & _ & Hrb).
    rewrite (emitted_app (tun_start E opt tc) w ev)
      by (unfold exec; by rewrite Hrun).
    rewrite Hrun. cbn. split; [done|].
    destruct rb as [[]|e].
    + left. destruct Hrb as (Hconn & Hone & Herr).
      repeat split; try done.
      pose proof (body_ends_connected _ _ _ _ _ Hbody) as Hlast.
      rewrite (tun_start_unfold w opt tc Himpl) in Hrun.
      unfold try_catch in Hrun. rewrite Hbody in Hrun.
      injection Hrun as <-.
      rewrite Htr, last_app in Hlast.
      destruct (last ev) as [x|] eqn:Hx; [done|].
      apply last_None in Hx. by subst ev.
    + right. destruct Hrb as (pre & closing & Hev & _ & Herr & Hconn & Hrel
                              & Hnone & _).
      unfold pump_running. rewrite Hnone. subst ev.
      rewrite !count_app. cbn. rewrite !count_app. cbn.
      rewrite (count_released is_error _ release_not_error Hrel).
      rewrite (count_released is_connected _ release_not_connected Hrel).
      rewrite Herr, Hconn.
      repeat split; try done. exists e.
      rewrite last_app_cons, last_cons, last_snoc. done.
Qed.
End StartReports.

Section ScopeOfStore.
Variable E : Env.

(** X3: neither [stop] nor [apply_push_update] changes the config, the
    long-term store in it included, and neither calls the store's
    [close]; with the long-term store referenced, [stop] closes no
    descriptor. *)
Theorem stop_keeps_config (w : World) opt tc :
  config (exec stop w) = config w
  /\ config (exec (apply_push_update opt tc) w) = config w
  /\ count is_store_close (emitted stop w) = 0%nat
  /\ count is_store_close (emitted (apply_push_update opt tc) w) = 0%nat
  /\ (tun_persist (client w) = Some LongTerm ->
      count is_fd_closed (emitted stop w) = 0%nat
      /\ count is_fd_closed (emitted (apply_push_update opt tc) w) = 0%nat).
Proof.
  assert (Hrel : forall e, is_release e = true -> is_store_close e = false)
    by apply release_not_close.
  unfold emitted, apply_push_update.
  full_world w; cbn.
  destruct h, i as [[id nm rs sm [|] rd]|], tp as [[|tp]|]; run; norm_trace;
    rewrite ?drop_app_length, ?drop_all; cbn;
    rewrite ?count_release_events by done;
    repeat split; try done; try discriminate.
Qed.

(** [stop] on a connected controller. *)
Lemma stop_connected cfg p id nm rs sm rd st su q n tr :
  let w := mkWorld cfg (mkClient (Some p) (Some (mkTun id nm rs sm false rd))
                                 st su false) q n tr in
  emitted stop w
  = pump_stop id :: persist_release
      :: match p with
         | LongTerm => []
         | ShortTerm tp => release_events tp
         end
  /\ config (exec stop w) = cfg.
Proof.
  intros w. subst w. split; [|by destruct p; run].
  apply emitted_app. unfold exec.
  destruct p; run; norm_trace; by rewrite ?app_nil_r.
Qed.

(** X4: what [stop] does to the device of a fresh connection depends on
    the scope of the store.  With a long-term store [stop] only stops the
    pump and gives up its reference: the config's store keeps the
    descriptor, the Session State and the teardown capability.  Without
    one, the short-term store dies with the reference: the device setup
    is torn down and the descriptor closed. *)
Theorem stop_after_fresh_start cfg opt tc server st1 po sd name q n tr :
  let prop := tun_prop cfg in
  let setup := new_setup_obj cfg in
  let tsconf :=
    mkSetupConfig (layer prop) (dev_name cfg) (txqueuelen cfg) true in
  let w0 := mkWorld cfg Client_ctor q n tr in
  let w1 := exec (tun_start E opt tc) w0 in
  let kept := mkTunPersist (enable_persistence (start_store w0))
                (retain_obj (start_store w0)) (tb (start_store w0))
                (Some (mkPersisted sd (set_iface_name st1 name)))
                (Some setup) in
  server_endpoint_addr tc = Ok server ->
  use_persisted_tun E (start_store w0) server prop opt = Ok false ->
  configure_builder E new_State server prop opt = (st1, Ok po) ->
  establish E setup po tsconf = Ok (sd, name) ->
  acquire E sd = Ok tt ->
  match cfg_tun_persist cfg with
  | Some _ =>
      emitted stop w1 = [pump_stop n; persist_release]
      /\ cfg_tun_persist (config (exec stop w1)) = Some kept
  | None =>
      emitted stop w1
      = [pump_stop n; persist_release; setup_destroyed setup; fd_closed sd]
      /\ config (exec stop w1) = cfg
  end.
Proof.
  intros prop setup tsconf w0 w1 kept Hsrv Hmiss Hcfg Hest Hacq.
  pose proof (tun_start_miss E w0 opt tc server st1 po sd name
                eq_refl Hsrv Hmiss Hcfg Hest Hacq) as Hrun.
  cbv zeta in Hrun. rewrite emitted_persist_reset in Hrun.
  subst w1.
  change (exec (tun_start E opt tc) w0) with (snd (tun_start E opt tc w0)).
  rewrite Hrun. cbn [snd]. clear Hrun.
  subst kept prop setup tsconf w0. unfold start_store in *.
  destruct cfg as [dn tq pr gen np fr sts fac [lt|]];
    cbn [cfg_tun_persist config client next_pump io_context trace];
    match goal with
    | |- context [mkWorld ?c (mkClient (Some ?p)
                                (Some (mkTun ?i ?m ?r ?s false ?d))
                                ?st ?su false) ?q ?n ?t] =>
        destruct (stop_connected c p i m r s d st su q n t) as [Hev Hconf]
    end; cbv zeta in Hev, Hconf; rewrite Hev, Hconf; done.
Qed.
End ScopeOfStore.

Section AfterStart.
Variable E : Env.

(** X5: after a [tun_start] that set up a new device, [tun_name] is the
    interface name the device setup reported, the address, gateway and
    MTU accessors read the Session State the property derivation wrote,
    and the pump is bound to the new descriptor with [n_parallel] reads
    handed out. *)
Theorem fresh_start_publishes_session (w : World) opt tc server st1 po sd name :
  let prop := tun_prop (config w) in
  let setup := new_setup_obj (config w) in
  let tsconf := mkSetupConfig (layer prop) (dev_name (config w))
                              (txqueuelen (config w)) true in
  let c' := client (exec (tun_start E opt tc) w) in
  impl (client w) = None ->
  server_endpoint_addr tc = Ok server ->
  use_persisted_tun E (start_store w) server prop opt = Ok false ->
  configure_builder E (state (client w)) server prop opt = (st1, Ok po) ->
  establish E setup po tsconf = Ok (sd, name) ->
  acquire E sd = Ok tt ->
  tun_name c' = name
  /\ iface_name (state c') = name
  /\ vpn_ip4 c' = (if IP.specified (vpn_ip4_addr st1)
                   then IP.to_string (vpn_ip4_addr st1) else ""%string)
  /\ vpn_ip6 c' = (if IP.specified (vpn_ip6_addr st1)
                   then IP.to_string (vpn_ip6_addr st1) else ""%string)
  /\ vpn_gw4 c' = (if IP.specified (vpn_ip4_gw st1)
                   then IP.to_string (vpn_ip4_gw st1) else ""%string)
  /\ vpn_gw6 c' = (if IP.specified (vpn_ip6_gw st1)
                   then IP.to_string (vpn_ip6_gw st1) else ""%string)
  /\ vpn_mtu c' = mtu st1
  /\ (exists t, impl c' = Some t /\ stream t = Some sd
                /\ tun_halt t = false
                /\ reads t = Z.to_nat (n_parallel (config w)))
  /\ tun_setup c' = Some setup
  /\ (from_option TunPersist_obj (-1)
        (current_store (exec (tun_start E opt tc) w)) = sd
      /\ from_option TunPersist_state new_State
           (current_store (exec (tun_start E opt tc) w))
         = set_iface_name st1 name).
Proof.
  intros prop setup tsconf c' Himpl Hsrv Hmiss Hcfg Hest Hacq.
  pose proof (tun_start_miss E w opt tc server st1 po sd name
                Himpl Hsrv Hmiss Hcfg Hest Hacq) as Hrun.
  cbv zeta in Hrun. subst c'. unfold exec. rewrite Hrun. clear Hrun.
  unfold tun_name, vpn_ip4, vpn_ip6, vpn_gw4, vpn_gw6, vpn_mtu,
    current_store. cbn.
  repeat split; try done; try (by eexists).
  all: by destruct (cfg_tun_persist (config w)).
Qed.

(** X6: the message of an exception thrown by the transport's address
    lookup, by the probe of the store, by the property derivation, by the
    device setup or by the store taking the descriptor is the detail of
    the [tun_error] call that ends [tun_start]. *)
Theorem failure_message_reaches_parent (w : World) opt tc e :
  impl (client w) = None ->
  let prop := tun_prop (config w) in
  let setup := new_setup_obj (config w) in
  let tsconf := mkSetupConfig (layer prop) (dev_name (config w))
                              (txqueuelen (config w)) true in
  let reported :=
    last (emitted (tun_start E opt tc) w)
    = Some (tun_error TUN_SETUP_FAILED e) in
  (server_endpoint_addr tc = Throw e -> reported)
  /\ (forall server,
         server_endpoint_addr tc = Ok server ->
         (use_persisted_tun E (start_store w) server prop opt = Throw e ->
          reported)
         /\ (forall st1,
                use_persisted_tun E (start_store w) server prop opt
                = Ok false ->
                (configure_builder E (state (client w)) server prop opt
                 = (st1, Throw e) -> reported)
                /\ (forall po,
                       configure_builder E (state (client w)) server prop opt
                       = (st1, Ok po) ->
                       (establish E setup po tsconf = Throw e -> reported)
                       /\ (forall sd name,
                              establish E setup po tsconf = Ok (sd, name) ->
                              acquire E sd = Throw e -> reported)))).
Proof.
  intros Himpl prop setup tsconf reported.
  assert (Hrep : outcome (tun_start_body E opt tc)
                   (exec tun_start_prologue w) = Throw e -> reported).
  { intros Hthrow. subst reported.
    destruct (tun_start_summary E w opt tc Himpl)
      as (rb & wb & w1 & ev1 & Hbody & Hrun & Htr & _ & _ & _ & Hrb).
    unfold outcome in Hthrow. rewrite Hbody in Hthrow. cbn in Hthrow.
    subst rb. destruct Hrb as (pre & closing & Hev & _).
    rewrite (emitted_app (tun_start E opt tc) w ev1)
      by (unfold exec; by rewrite Hrun).
    subst ev1. by rewrite last_app_cons, last_cons, last_snoc. }
  destruct (try_block_throws E w opt tc e Himpl) as (H1 & H2).
  split; [by intros H; apply Hrep, H1|].
  intros server Hsrv. destruct (H2 server Hsrv) as (H3 & H4).
  split; [by intros H; apply Hrep, H3|].
  intros st1 Hmiss. destruct (H4 st1 Hmiss) as (H5 & H6).
  split; [by intros H; apply Hrep, H5|].
  intros po Hcfg. destruct (H6 po Hcfg) as (H7 & H8).
  split; [by intros H; apply Hrep, H7|].
  intros sd name Hest Hacq. by apply Hrep, (H8 sd name).
Qed.

(** X7: once [stop] has run on a controller that was not halted,
    [tun_send] returns false, hands nothing to the descriptor and changes
    nothing, whether or not the controller still holds its pump. *)
Theorem tun_send_after_stop (w : World) buf :
  halt (client w) = false ->
  tun_send E buf (exec stop w) = (Ok false, exec stop w).
Proof.
  unfold tun_send, send, Tun_write. full_world w; cbn. intros ->.
  destruct i as [[id nm rs sm [|] rd]|], tp as [[|tp]|]; run; done.
Qed.

(** X8: [load] is idempotent: a second [load] with the same options
    returns or throws as the first did and leaves the config the first
    one produced. *)
Theorem load_idempotent (c : ClientConfig) (opt : OptionList) :
  load E (snd (load E c opt)) opt = load E c opt.
Proof.
  unfold load.
  destruct c as [dn tq [ly m rest] gen np fr st fac tp]; cbn.
  destruct (Z.eqb_spec m 0) as [Hm|Hm]; cbn;
    (destruct (String.eqb_spec dn "") as [Hd|Hd]; cbn;
     [ destruct (get_ptr E opt "dev") as [dev|] eqn:Hget; cbn;
       [ destruct (Option_get E dev 1 64) as [v|e] eqn:Hv; cbn | ]
     | ]);
    repeat match goal with
      | |- context [TUN_MTU_DEFAULT E =? 0] =>
          destruct (Z.eqb_spec (TUN_MTU_DEFAULT E) 0); cbn
      | |- context [m =? 0] => destruct (Z.eqb_spec m 0); [lia|]; cbn
      | |- context [String.eqb ?x ""] =>
          destruct (String.eqb_spec x ""); cbn
      | H : get_ptr E opt "dev" = _ |- _ => rewrite H; cbn
      | H : Option_get E _ 1 64 = _ |- _ => rewrite H; cbn
      end;
    try done; try congruence.
Qed.
End AfterStart.

Section PushUpdateRestart.
Variable E : Env.

(** X9: a push update on a controller that is connected through the
    long-term store keeps the device.  Once the io_context has run the
    handlers that were waiting and the posted start, the controller is
    connected again on the store's descriptor, under the stored interface
    name and Session State; no device was established, no descriptor
    closed, no packet of the old pump passed on, and the parent heard
    [tun_connected] once. *)
Theorem push_update_keeps_long_term_device (w : World) opt tc server lt p :
  forallb is_read_done (io_context w) = true ->
  tun_persist (client w) = Some LongTerm ->
  cfg_tun_persist (config w) = Some lt ->
  held lt = Some p ->
  server_endpoint_addr tc = Ok server ->
  compatible E (p_state p) server (tun_prop (config w)) opt = Ok true ->
  let w1 := exec (apply_push_update opt tc) w in
  let w2 := exec (run_n E (length (io_context w1))) w1 in
  let ev := drop (length (trace w)) (trace w2) in
  Connected w2
  /\ io_context w2 = []
  /\ config w2 = config w
  /\ impl (client w2)
     = Some (mkTun (next_pump w) (iface_name (p_state p)) true
                   (Some (p_obj p)) false (Z.to_nat (n_parallel (config w))))
  /\ state (client w2) = p_state p
  /\ count is_establish ev = 0%nat
  /\ count is_fd_closed ev = 0%nat
  /\ count is_recv ev = 0%nat
  /\ count is_connected ev = 1%nat.
Proof.
  intros Hq Hptr Hlt Hheld Hsrv Hok w1 w2 ev.
  destruct (apply_push_update_effect w opt tc)
    as (ev1 & tp1 & h1 & Hrun & Hest1 & Hrecv1 & Hconn1 & Hfd1 & Htp1
        & _).
  set (l := io_context w ++ aborted_reads (client w)) in *.
  assert (Hl : forallb is_read_done l = true).
  { subst l. by rewrite forallb_app, Hq, aborted_reads_are_reads. }
  specialize (Hfd1 Hptr).
  assert (Hw1 : w1 = mkWorld (config w)
                       (mkClient tp1 None (state (client w))
                                 (tun_setup (client w)) h1)
                       (l ++ [PostedStart opt tc]) (next_pump w)
                       (trace w ++ ev1)).
  { subst w1 l. unfold exec. rewrite Hrun. cbn. by rewrite app_assoc. }
  clearbody w1. subst w1 w2 ev. cbn [io_context].
  rewrite (length_app l). cbn [length].
  unfold exec. rewrite run_n_add. unfold exec.
  erewrite run_read_done_without_pump; [|done|by cbn|done].
  cbn [snd run_n config client next_pump trace].
  unfold run_one, run_task. unfold_monad. unfold with_io_context.
  cbn [config client io_context next_pump trace].
  match goal with
  | |- context [tun_start E opt tc ?W] => set (wm := W)
  end.
  rewrite (tun_start_hit E wm opt tc server); [|done|done|].
  2: { unfold start_store, use_persisted_tun. subst wm.
       cbn [config]. by rewrite Hlt, Hheld. }
  assert (Hrel : forall q, q persist_release = false ->
                           count q (emitted persist_reset wm) = 0%nat).
  { intros q0 Hq0. rewrite emitted_persist_reset. subst wm.
    cbn [client tun_persist].
    destruct Htp1 as [->| ->]; rewrite ?Hptr; cbn; by rewrite ?Hq0. }
  set (rel := emitted persist_reset wm) in *. clearbody rel.
  unfold start_store. subst wm. cbn [snd config client next_pump trace
                                      io_context impl state].
  rewrite Hlt. unfold TunPersist_obj, TunPersist_state.
  rewrite Hheld. unfold Connected, pump_running.
  cbn [snd config client next_pump trace io_context impl state tun_halt negb].
  rewrite <- !app_assoc, drop_app_length.
  rewrite !count_app, Hest1, Hfd1, Hrecv1, Hconn1.
  rewrite !count_callbacks by done.
  rewrite !Hrel by done.
  done.
Qed.

(** X10: without a long-term store a push update costs the device.  The
    stop inside [apply_push_update] drops the only reference to the
    short-term store, which tears the device setup down and closes the
    descriptor; the posted start then finds nothing to reuse and
    establishes the device anew, once, after the old one is gone. *)
Theorem push_update_reestablishes_short_term_device
        (w : World) opt tc server tp0 st1 po sd name :
  let prop := tun_prop (config w) in
  let setup := new_setup_obj (config w) in
  let tsconf := mkSetupConfig (layer prop) (dev_name (config w))
                              (txqueuelen (config w)) true in
  forallb is_read_done (io_context w) = true ->
  halt (client w) = false ->
  tun_persist (client w) = Some (ShortTerm tp0) ->
  cfg_tun_persist (config w) = None ->
  server_endpoint_addr tc = Ok server ->
  configure_builder E (state (client w)) server prop opt = (st1, Ok po) ->
  establish E setup po tsconf = Ok (sd, name) ->
  acquire E sd = Ok tt ->
  let w1 := exec (apply_push_update opt tc) w in
  let w2 := exec (run_n E (length (io_context w1))) w1 in
  let ev := drop (length (trace w)) (trace w2) in
  Connected w2
  /\ io_context w2 = []
  /\ config w2 = config w
  /\ tun_name (client w2) = name
  /\ count is_establish ev = 1%nat
  /\ count is_connected ev = 1%nat
  /\ count is_recv ev = 0%nat
  /\ exists l1 l2,
       ev = l1 ++ release_events tp0 ++ l2
       /\ count is_establish l1 = 0%nat.
Proof.
  intros prop setup tsconf Hq Hhalt Hptr Hcfg Hsrv Hconf Hest Hacq w1 w2 ev.
  destruct (apply_push_update_effect w opt tc)
    as (ev1 & tp1 & h1 & Hrun & Hest1 & Hrecv1 & Hconn1 & _ & _ & ->
        & Hlive & _ & Hev1).
  rewrite (Hlive Hhalt) in *. clear Hlive.
  rewrite Hhalt, Hptr in Hev1.
  set (l := io_context w ++ aborted_reads (client w)) in *.
  assert (Hl : forallb is_read_done l = true).
  { subst l. by rewrite forallb_app, Hq, aborted_reads_are_reads. }
  assert (Hw1 : w1 = mkWorld (config w)
                       (mkClient None None (state (client w))
                                 (tun_setup (client w)) true)
                       (l ++ [PostedStart opt tc]) (next_pump w)
                       (trace w ++ ev1)).
  { subst w1 l. unfold exec. rewrite Hrun. cbn. by rewrite app_assoc. }
  clearbody w1. subst w1 w2 ev. cbn [io_context].
  rewrite (length_app l). cbn [length].
  unfold exec. rewrite run_n_add. unfold exec.
  erewrite run_read_done_without_pump; [|done|by cbn|done].
  cbn [snd run_n config client next_pump trace].
  unfold run_one, run_task. unfold_monad. unfold with_io_context.
  cbn [config client io_context next_pump trace].
  match goal with
  | |- context [tun_start E opt tc ?W] => set (wm := W)
  end.
  assert (Hprobe : use_persisted_tun E (start_store wm) server
                                     (tun_prop (config wm)) opt = Ok false).
  { unfold start_store, use_persisted_tun. subst wm.
    cbn [config]. by rewrite Hcfg. }
  rewrite (tun_start_miss E wm opt tc server st1 po sd name
                          eq_refl Hsrv Hprobe Hconf Hest Hacq).
  rewrite emitted_persist_reset.
  unfold start_store, release_events at 1. subst wm.
  cbn [snd config client next_pump trace io_context impl state tun_persist].
  rewrite Hcfg.
  unfold Connected, pump_running, tun_name, Tun_name.
  cbn [snd config client next_pump trace io_context impl state tun_halt
       negb name_ TunPersist_ctor held destructor app].
  rewrite <- !app_assoc, drop_app_length.
  rewrite !count_app, Hest1, Hrecv1, Hconn1.
  rewrite !count_callbacks by done.
  change (release_events (TunPersist_ctor true NO_RETAIN None))
    with (@nil Event).
  cbn [app].
  set (json := if HAVE_JSON E && _ then _ else _).
  assert (Hjson : forall q, (forall n0 p0, q (tun_event n0 p0) = false) ->
                            count q json = 0%nat).
  { intros q0 Hq0. subst json. destruct (_ && _); cbn; by rewrite ?Hq0. }
  clearbody json.
  do 4 (split; [reflexivity|]).
  split; [cbn; by rewrite count_app, Hjson|].
  split; [cbn; by rewrite count_app, Hjson|].
  split; [cbn; by rewrite count_app, Hjson|].
  rewrite Hev1, <- !app_assoc. cbn [app].
  match goal with
  | |- exists l1 l2,
         ?a ++ persist_release :: release_events tp0 ++ ?r = _ /\ _ =>
      exists (a ++ [persist_release]), r
  end.
  split; [by rewrite <- app_assoc|].
  rewrite count_app.
  destruct (impl (client w)) as [t|]; [destruct (tun_halt t)|]; reflexivity.
Qed.
End PushUpdateRestart.

Section ReadPath.
(** X20: the read path reports packets and nothing else.  The handler of
    a completed read returns normally; a packet read on the running pump
    is passed to [tun_recv], once and unchanged; a failed read or an
    end of file reaches [tun_error_handler], which does nothing: the
    parent is told nothing, no [tun_error] is called, and the controller
    keeps its config, store reference, Session State, halted flag and
    running pump. *)
Theorem read_errors_are_dropped (w : World) id pk :
  let w' := exec (handle_read id pk) w in
  let ev := emitted (handle_read id pk) w in
  outcome (handle_read id pk) w = Ok tt
  /\ count is_error ev = 0%nat
  /\ config w' = config w
  /\ tun_persist (client w') = tun_persist (client w)
  /\ state (client w') = state (client w)
  /\ halt (client w') = halt (client w)
  /\ pump_running (client w') = pump_running (client w)
  /\ ev = match pk, impl (client w) with
          | Ok buf, Some t =>
              if (pump_id t =? id)%nat && negb (tun_halt t)
                 && negb (buf_size buf =? 0)
              then [tun_recv buf] else []
          | _, _ => []
          end.
Proof.
  intros w' ev. subst w' ev.
  unfold emitted, pump_running, handle_read, tun_read_handler,
    tun_error_handler.
  full_world w.
  destruct i as [[id' nm rs sm hl rd]|]; run;
    [|rewrite drop_all; by destruct pk].
  destruct (id' =? id)%nat, hl; run;
    (destruct pk as [buf|e]; run;
     [destruct (buf_size buf =? 0); run|]);
    rewrite ?drop_all, ?drop_app_length; by split_and!.
Qed.
End ReadPath.

(** ** SafeString: the operations that change a string *)

Section SafeStringOps.
Variable uninit : nat -> ascii.

Lemma to_string_content (ss : SafeString) :
  to_string ss = string_of_list_ascii (buf_content (data ss)).
Proof. done. Qed.

Lemma length_buf_content (b : BufferAllocated) :
  0 <= offset_ b -> 0 <= size_ b ->
  offset_ b + size_ b <= capacity_ b ->
  length (data_ b) = Z.to_nat (capacity_ b) ->
  length (buf_content b) = Z.to_nat (size_ b).
Proof.
  intros Ho Hs Hc Hlen. unfold buf_content.
  rewrite length_take, length_drop. lia.
Qed.

(** Growing an allocated buffer succeeds and keeps the bytes in use. *)
Lemma buf_resize_ok (b : BufferAllocated) (n : Z) :
  buf_ok b ->
  exists b', buf_resize uninit b n = Ok b'
             /\ buf_ok b'
             /\ offset_ b' = offset_ b
             /\ size_ b' = size_ b
             /\ capacity_ b' = Z.max n (capacity_ b)
             /\ buf_content b' = buf_content b.
Proof.
  intros (Ho & Hs & Hc & Hlen & Hgrow). unfold buf_resize.
  destruct (Z.leb_spec n (capacity_ b)) as [Hle|Hgt].
  - exists b. split_and!; try done. lia.
  - rewrite Hgrow. eexists. split; [reflexivity|].
    unfold buf_ok, buf_content, memcpy. cbn.
    split_and!; try done; try lia.
    + rewrite !length_app, !length_take, !length_drop, length_new_array. lia.
    + rewrite drop_app_length'
        by (rewrite length_take, length_new_array; lia).
      rewrite take_app_length'; [done|].
      rewrite length_take, length_drop. lia.
Qed.

(** [write] on an allocated buffer appends the first [n] bytes of the
    source. *)
Lemma buf_write_ok (b : BufferAllocated) (src : list ascii) (n : Z) :
  buf_ok b -> 0 <= n -> (Z.to_nat n <= length src)%nat ->
  exists b', buf_write uninit b src n = Ok b'
             /\ buf_ok b'
             /\ offset_ b' = offset_ b
             /\ size_ b' = size_ b + n
             /\ capacity_ b' = Z.max (offset_ b + size_ b + n) (capacity_ b)
             /\ buf_content b' = buf_content b ++ take (Z.to_nat n) src.
Proof.
  intros Hok Hn Hsrc. unfold buf_write.
  assert (Hpre : exists b1,
             (if buf_remaining b <? n
              then buf_resize uninit b (offset_ b + size_ b + n)
              else Ok b) = Ok b1
             /\ buf_ok b1 /\ offset_ b1 = offset_ b /\ size_ b1 = size_ b
             /\ capacity_ b1 = Z.max (offset_ b + size_ b + n) (capacity_ b)
             /\ buf_content b1 = buf_content b).
  { unfold buf_remaining.
    destruct (Z.ltb_spec (capacity_ b - offset_ b - size_ b) n) as [Hlt|Hge].
    - destruct (buf_resize_ok b (offset_ b + size_ b + n) Hok)
        as (b1 & -> & Hok1 & Ho1 & Hs1 & Hc1 & Hcont).
      by exists b1.
    - exists b. split_and!; try done. lia. }
  destruct Hpre as (b1 & -> & (Ho & Hs & Hc & Hlen & Hgrow) & Ho1 & Hs1
                    & Hfit & Hcont).
  cbn. eexists. split; [reflexivity|]. rewrite <- Hcont.
  unfold buf_ok, buf_content, memcpy; cbn.
  split_and!; try done; try lia.
  - rewrite !length_app, !length_take, length_drop. lia.
  - rewrite drop_app_le by (rewrite length_take; lia).
    rewrite app_assoc, take_app_length'.
    2: { rewrite length_app, length_drop, !length_take. lia. }
    f_equal. rewrite take_drop_commute.
    f_equal. f_equal. lia.
Qed.

(** Room for one more byte behind the bytes in use. *)
Lemma buf_room_ok (b : BufferAllocated) :
  buf_ok b ->
  exists b1,
    (if buf_remaining b =? 0
     then buf_resize uninit b (offset_ b + size_ b + 1)
     else Ok b) = Ok b1
    /\ buf_ok b1 /\ offset_ b1 = offset_ b /\ size_ b1 = size_ b
    /\ capacity_ b1 = Z.max (offset_ b + size_ b + 1) (capacity_ b)
    /\ buf_content b1 = buf_content b.
Proof.
  intros Hok. unfold buf_remaining.
  destruct (Z.eqb_spec (capacity_ b - offset_ b - size_ b) 0) as [Hz|Hnz].
  - destruct (buf_resize_ok b (offset_ b + size_ b + 1) Hok)
      as (b1 & -> & Hok1 & Ho1 & Hs1 & Hc1 & Hcont).
    by exists b1.
  - exists b. destruct Hok as (Ho & Hs & Hc & Hlen & Hgrow).
    split_and!; try done. lia.
Qed.

(** [trail] puts a NUL behind the bytes in use and leaves them alone. *)
Lemma trail_ok (b : BufferAllocated) :
  buf_ok b ->
  exists b', trail uninit b = Ok b'
             /\ buf_ok b'
             /\ offset_ b' = offset_ b
             /\ size_ b' = size_ b
             /\ capacity_ b' = Z.max (offset_ b + size_ b + 1) (capacity_ b)
             /\ buf_content b' = buf_content b
             /\ data_ b' !! Z.to_nat (offset_ b' + size_ b') = Some zero.
Proof.
  intros Hok. unfold trail, buf_set_trailer.
  destruct (buf_room_ok b Hok)
    as (b1 & -> & (Ho & Hs & Hc & Hlen & Hgrow) & Ho1 & Hs1 & Hc1 & Hcont).
  cbn. eexists. split; [reflexivity|]. rewrite <- Hcont.
  unfold buf_ok, buf_content; cbn.
  split_and!; try done; try lia.
  - by rewrite length_insert.
  - rewrite drop_insert_ge by lia. rewrite take_insert_ge; [done|lia].
  - apply list_lookup_insert_eq. lia.
Qed.

(** [push_back] appends one byte. *)
Lemma buf_push_back_ok (b : BufferAllocated) (c : ascii) :
  buf_ok b ->
  exists b', buf_push_back uninit b c = Ok b'
             /\ buf_ok b'
             /\ offset_ b' = offset_ b
             /\ size_ b' = size_ b + 1
             /\ buf_content b' = buf_content b ++ [c].
Proof.
  intros Hok. unfold buf_push_back.
  destruct (buf_room_ok b Hok)
    as (b1 & -> & (Ho & Hs & Hc & Hlen & Hgrow) & Ho1 & Hs1 & Hc1 & Hcont).
  cbn. eexists. split; [reflexivity|]. rewrite <- Hcont.
  unfold buf_ok, buf_content; cbn.
  split_and!; try done; try lia.
  - by rewrite length_insert.
  - rewrite drop_insert_ge by lia.
    replace (Z.to_nat (size_ b1 + 1)) with (S (Z.to_nat (size_ b1))) by lia.
    replace (Z.to_nat (offset_ b1 + size_ b1) - Z.to_nat (offset_ b1))%nat
      with (Z.to_nat (size_ b1)) by lia.
    erewrite take_S_r.
    2: { apply list_lookup_insert_eq. rewrite length_drop. lia. }
    f_equal. rewrite take_insert_ge; [done|lia].
Qed.

Lemma GROW_in_BUF_FLAGS :
  BufAllocFlags.has BUF_FLAGS BufAllocFlags.GROW = true.
Proof. reflexivity. Qed.

Lemma buf_init_ok (capacity : Z) :
  0 <= capacity ->
  buf_ok (buf_init uninit capacity BUF_FLAGS)
  /\ buf_content (buf_init uninit capacity BUF_FLAGS) = [].
Proof.
  intros Hc. unfold buf_ok, buf_init, BufferAllocated_ctor; cbn.
  split_and!; try done; try lia. apply length_new_array.
Qed.

(** [alloc] makes a buffer fit for writing, with or without a NUL
    behind its bytes. *)
Lemma alloc_fits (d : BufferAllocated) :
  0 <= offset_ d -> 0 <= size_ d ->
  offset_ d + size_ d <= capacity_ d ->
  length (data_ d) = Z.to_nat (capacity_ d) ->
  (buf_allocated d = true ->
   BufAllocFlags.has (flags_ d) BufAllocFlags.GROW = true) ->
  buf_ok (alloc uninit d)
  /\ size_ (alloc uninit d) = size_ d
  /\ buf_content (alloc uninit d) = buf_content d.
Proof.
  intros Ho Hs Hc Hlen Hgrow. unfold alloc, buf_allocated in *.
  destruct (Z.eqb_spec (capacity_ d) 0) as [Hz|Hnz]; cbn.
  - destruct (buf_init_ok INITIAL_CAPACITY) as [Hok Hcont]; [done|].
    split_and!; [done| cbn; lia |].
    rewrite Hcont. unfold buf_content.
    replace (size_ d) with 0 by lia. done.
  - split_and!; try done. unfold buf_ok. split_and!; try done. by apply Hgrow.
Qed.

Lemma alloc_ok (ss : SafeString) :
  SafeString_inv ss ->
  buf_ok (alloc uninit (data ss))
  /\ size_ (alloc uninit (data ss)) = size_ (data ss)
  /\ buf_content (alloc uninit (data ss)) = buf_content (data ss).
Proof. intros (Ho & Hs & Hc & Hlen & Hgrow & _). by apply alloc_fits. Qed.

(** A buffer that is fit for writing and has its trailer set makes a
    SafeString. *)
Lemma SafeString_inv_intro (b : BufferAllocated) :
  buf_ok b ->
  data_ b !! Z.to_nat (offset_ b + size_ b) = Some zero ->
  SafeString_inv (mkSafeString b).
Proof.
  intros (Ho & Hs & Hc & Hlen & Hgrow) Hnul.
  unfold SafeString_inv; cbn. by split_and!.
Qed.

Lemma string_of_list_ascii_app (l1 l2 : list ascii) :
  string_of_list_ascii (l1 ++ l2)
  = (string_of_list_ascii l1 +:+ string_of_list_ascii l2)%string.
Proof. induction l1 as [|c l1 IH]; cbn; [done | by rewrite IH]. Qed.

Lemma string_length_of_list_ascii (l : list ascii) :
  String.length (string_of_list_ascii l) = length l.
Proof. induction l as [|c l IH]; cbn; [done | by rewrite IH]. Qed.

Lemma strlen_bounds (s : list ascii) :
  0 <= strlen s /\ (Z.to_nat (strlen s) <= length s)%nat.
Proof.
  induction s as [|c s [IH1 IH2]]; cbn; [lia|].
  destruct (Ascii.eqb c zero); cbn; lia.
Qed.

Lemma strlen_app_zero_le (l : list ascii) :
  strlen (l ++ [zero]) <= Z.of_nat (length l).
Proof.
  induction l as [|c l IH]; cbn [app strlen length]; [done|].
  destruct (Ascii.eqb c zero); lia.
Qed.

(** The bytes before a NUL are read up to their own first NUL. *)
Lemma cstring_app_zero (l rest : list ascii) :
  cstring (l ++ zero :: rest) = cstring (l ++ [zero]).
Proof.
  unfold cstring. induction l as [|c l IH]; cbn; [done|].
  destruct (Ascii.eqb c zero); [done|].
  pose proof (strlen_bounds (l ++ zero :: rest)) as [? _].
  pose proof (strlen_bounds (l ++ [zero])) as [? _].
  rewrite !Z2Nat.inj_add by lia. change (Z.to_nat 1) with 1%nat.
  cbn [Nat.add take]. f_equal. apply IH.
Qed.

Lemma cstring_no_zero (l rest : list ascii) :
  forallb (fun c => negb (Ascii.eqb c zero)) l = true ->
  strlen (l ++ zero :: rest) = Z.of_nat (length l)
  /\ cstring (l ++ zero :: rest) = l.
Proof.
  unfold cstring. induction l as [|c l IH]; cbn; [done|].
  intros [Hc Hl]%andb_true_iff. destruct (Ascii.eqb c zero); [done|].
  destruct (IH Hl) as [IH1 IH2]. rewrite IH1. split; [lia|].
  replace (Z.to_nat (1 + Z.of_nat (length l))) with (S (length l)) by lia.
  cbn. f_equal. by rewrite IH1, Nat2Z.id in IH2.
Qed.

(** The constructor from a pointer and a size, below the guard. *)
Lemma SafeString_of_ptr_ok (mem : list ascii) (size : Z) :
  0 <= size < size_t_max ->
  (Z.to_nat size <= length mem)%nat ->
  exists ss, SafeString_of_ptr uninit mem size = Ok ss
             /\ SafeString_inv ss
             /\ buf_content (data ss) = take (Z.to_nat size) mem
             /\ size_ (data ss) = size
             /\ offset_ (data ss) = 0
             /\ capacity_ (data ss) = size + 1.
Proof.
  intros Hsize Hmem. unfold SafeString_of_ptr.
  destruct (Z.eqb_spec size size_t_max) as [?|_]; [lia|].
  assert (Hcap : size_t (size + 1) = size + 1).
  { unfold size_t. apply Z.mod_small. unfold size_t_max in Hsize. lia. }
  rewrite Hcap.
  destruct (buf_init_ok (size + 1)) as [Hok0 Hcont0]; [lia|].
  unfold buf_init in *.
  destruct (buf_write_ok _ mem size Hok0)
    as (b1 & -> & Hok1 & Ho1 & Hs1 & Hc1 & Hcont1); [lia|done|].
  destruct (trail_ok b1 Hok1)
    as (b2 & Hrun2 & Hok2 & Ho2 & Hs2 & Hc2 & Hcont2 & Hnul).
  cbn in *. rewrite Hrun2. cbn. exists (mkSafeString b2). cbn.
  split_and!; try done; try lia.
  - by apply SafeString_inv_intro.
  - by rewrite Hcont2, Hcont1, Hcont0.
Qed.

(** What [c_str] reads back, whatever lies behind the trailer. *)
Lemma c_str_reads_content (ss : SafeString) :
  SafeString_inv ss ->
  cstring (c_str ss) = cstring (buf_content (data ss) ++ [zero]).
Proof.
  intros (Ho & Hs & Hc & Hlen & _ & Hnul). unfold c_str, buf_defined in *.
  destruct (Z.ltb_spec 0 (size_ (data ss))) as [Hpos|Hzero].
  - specialize (Hnul eq_refl). unfold buf_c_data, buf_content.
    set (L := drop (Z.to_nat (offset_ (data ss))) (data_ (data ss))).
    assert (HL : L !! Z.to_nat (size_ (data ss)) = Some zero).
    { subst L. rewrite lookup_drop, <- Hnul. f_equal. lia. }
    rewrite <- (take_drop_middle L _ zero HL) at 1.
    apply cstring_app_zero.
  - unfold buf_content. by replace (size_ (data ss)) with 0 by lia.
Qed.

(** X11: [SafeString(str, size)] refuses the one size whose successor
    wraps around, and for every other size copies exactly [size] bytes,
    NULs among them included, into a buffer of [size + 1] bytes whose last
    byte is the trailing NUL. *)
Theorem SafeString_of_ptr_copies_size_bytes (mem : list ascii) (size : Z) :
  0 <= size < size_t_max ->
  (Z.to_nat size <= length mem)%nat ->
  SafeString_of_ptr uninit mem size_t_max = Throw "buffer_overflow"
  /\ exists ss,
       SafeString_of_ptr uninit mem size = Ok ss
       /\ SafeString_inv ss
       /\ to_string ss = string_of_list_ascii (take (Z.to_nat size) mem)
       /\ SafeString_length ss = size
       /\ capacity_ (data ss) = size + 1
       /\ data_ (data ss) !! Z.to_nat size = Some zero.
Proof.
  intros Hsize Hmem. split; [done|].
  destruct (SafeString_of_ptr_ok mem size Hsize Hmem)
    as (ss & Hrun & Hinv & Hcont & Hs & Ho & Hc).
  exists ss. rewrite to_string_content, Hcont.
  split_and!; try done.
  destruct Hinv as (_ & _ & _ & _ & _ & Hnul).
  destruct (Z.eq_dec size 0) as [->|Hnz].
  - clear Hnul. revert Hrun. unfold SafeString_of_ptr. cbn.
    intros [= <-]. cbn. unfold new_array. cbn. done.
  - rewrite Ho, Hs in Hnul. apply Hnul. unfold buf_defined. rewrite Hs.
    apply Z.ltb_lt. lia.
Qed.

(** X12: [SafeString(const char *str)] takes the bytes before the first NUL:
    built from a C string it holds exactly its characters, and [c_str]
    reads them back. *)
Theorem SafeString_of_cstr_round_trip (l rest : list ascii) :
  forallb (fun c => negb (Ascii.eqb c zero)) l = true ->
  Z.of_nat (length l) < size_t_max ->
  exists ss,
    SafeString_of_cstr uninit (l ++ zero :: rest) = Ok ss
    /\ SafeString_inv ss
    /\ to_string ss = string_of_list_ascii l
    /\ SafeString_length ss = Z.of_nat (length l)
    /\ cstring (c_str ss) = l.
Proof.
  intros Hl Hlen. unfold SafeString_of_cstr.
  destruct (cstring_no_zero l rest Hl) as [Hstrlen Hcstr].
  rewrite Hstrlen.
  destruct (SafeString_of_ptr_ok (l ++ zero :: rest) (Z.of_nat (length l)))
    as (ss & Hrun & Hinv & Hcont & Hs & _); [lia| |].
  { rewrite length_app. lia. }
  rewrite Nat2Z.id, take_app_length in Hcont.
  exists ss. rewrite to_string_content, Hcont.
  split_and!; try done.
  rewrite (c_str_reads_content ss Hinv), Hcont.
  apply (cstring_no_zero l [] Hl).
Qed.

(** X13: [operator+=(char)] never fails on a SafeString, whether it was
    default-constructed, wiped or already holds bytes: the string is the
    old one with the character at its end, one longer, and terminated
    again. *)
Theorem SafeString_push_back_appends (ss : SafeString) (c : ascii) :
  SafeString_inv ss ->
  exists ss',
    SafeString_push_back uninit ss c = Ok ss'
    /\ SafeString_inv ss'
    /\ to_string ss' = (to_string ss +:+ String c EmptyString)%string
    /\ SafeString_length ss' = SafeString_length ss + 1.
Proof.
  intros Hinv. unfold SafeString_push_back.
  destruct (alloc_ok ss Hinv) as (Hok0 & Hs0 & Hcont0).
  destruct (buf_push_back_ok _ c Hok0)
    as (b1 & -> & Hok1 & Ho1 & Hs1 & Hcont1).
  destruct (trail_ok b1 Hok1)
    as (b2 & Hrun2 & Hok2 & Ho2 & Hs2 & Hc2 & Hcont2 & Hnul).
  cbn. rewrite Hrun2. cbn. exists (mkSafeString b2).
  rewrite !to_string_content. unfold SafeString_length, buf_size. cbn.
  split_and!; try done.
  - by apply SafeString_inv_intro.
  - by rewrite Hcont2, Hcont1, Hcont0, string_of_list_ascii_app.
  - lia.
Qed.

(** X14: [append(const SafeString &)] concatenates: the result reads as
    the receiver followed by the argument, the lengths add up, and the
    call does not fail. *)
Theorem SafeString_append_concatenates (ss str : SafeString) :
  SafeString_inv ss ->
  SafeString_inv str ->
  exists ss',
    SafeString_append uninit ss str = Ok ss'
    /\ SafeString_inv ss'
    /\ to_string ss' = (to_string ss +:+ to_string str)%string
    /\ SafeString_length ss' = SafeString_length ss + SafeString_length str.
Proof.
  intros Hinv Hstr. unfold SafeString_append, buf_append.
  destruct (alloc_ok ss Hinv) as (Hok0 & Hs0 & Hcont0).
  destruct Hstr as (Ho & Hs & Hc & Hlen & _ & _).
  destruct (buf_write_ok _ (buf_c_data (data str)) (buf_size (data str)) Hok0)
    as (b1 & -> & Hok1 & Ho1 & Hs1 & Hc1 & Hcont1); [done| |].
  { unfold buf_c_data, buf_size. rewrite length_drop. lia. }
  destruct (trail_ok b1 Hok1)
    as (b2 & Hrun2 & Hok2 & Ho2 & Hs2 & Hc2 & Hcont2 & Hnul).
  cbn. rewrite Hrun2. cbn. exists (mkSafeString b2).
  rewrite !to_string_content. unfold SafeString_length, buf_size in *. cbn.
  split_and!; try done.
  - by apply SafeString_inv_intro.
  - by rewrite Hcont2, Hcont1, Hcont0, string_of_list_ascii_app.
  - lia.
Qed.

(** X15: [append(const char *s)] appends the bytes before the first NUL of
    its argument and nothing behind it. *)
Theorem SafeString_append_cstr_appends (ss : SafeString) (s : list ascii) :
  SafeString_inv ss ->
  exists ss',
    SafeString_append_cstr uninit ss s = Ok ss'
    /\ SafeString_inv ss'
    /\ to_string ss'
       = (to_string ss +:+ string_of_list_ascii (cstring s))%string
    /\ SafeString_length ss' = SafeString_length ss + strlen s.
Proof.
  intros Hinv. unfold SafeString_append_cstr.
  destruct (alloc_ok ss Hinv) as (Hok0 & Hs0 & Hcont0).
  destruct (strlen_bounds s) as [Hn Hsrc].
  destruct (buf_write_ok _ s (strlen s) Hok0 Hn Hsrc)
    as (b1 & -> & Hok1 & Ho1 & Hs1 & Hc1 & Hcont1).
  destruct (trail_ok b1 Hok1)
    as (b2 & Hrun2 & Hok2 & Ho2 & Hs2 & Hc2 & Hcont2 & Hnul).
  cbn. rewrite Hrun2. cbn. exists (mkSafeString b2).
  rewrite !to_string_content. unfold SafeString_length, buf_size. cbn.
  split_and!; try done.
  - by apply SafeString_inv_intro.
  - by rewrite Hcont2, Hcont1, Hcont0, string_of_list_ascii_app.
  - lia.
Qed.

(** X16: [c_str] is a valid C string for every SafeString: reading from
    the pointer stops within the string, at the trailing NUL at the
    latest, and for a string that holds no NUL of its own gives exactly
    the characters of [to_string]. *)
Theorem c_str_reads_the_string (ss : SafeString) :
  SafeString_inv ss ->
  strlen (c_str ss) <= SafeString_length ss
  /\ cstring (c_str ss)
     = cstring (list_ascii_of_string (to_string ss) ++ [zero])
  /\ (forallb (fun c => negb (Ascii.eqb c zero))
              (list_ascii_of_string (to_string ss)) = true ->
      string_of_list_ascii (cstring (c_str ss)) = to_string ss).
Proof.
  intros Hinv. pose proof (c_str_reads_content ss Hinv) as Hread.
  rewrite to_string_content, list_ascii_of_string_of_list_ascii.
  split_and!; [|done|].
  - destruct Hinv as (Ho & Hs & Hc & Hlen & _ & _).
    assert (Hl : length (cstring (c_str ss))
                 = Z.to_nat (strlen (c_str ss))).
    { unfold cstring. rewrite length_take.
      pose proof (strlen_bounds (c_str ss)). lia. }
    rewrite Hread in Hl.
    pose proof (strlen_bounds (c_str ss)) as [Hn _].
    assert (Hle : (length (cstring (buf_content (data ss) ++ [zero]))
                   <= length (buf_content (data ss)))%nat).
    { unfold cstring. rewrite length_take.
      pose proof (strlen_app_zero_le (buf_content (data ss))). lia. }
    rewrite length_buf_content in Hle by done.
    unfold SafeString_length, buf_size. lia.
  - intros Hnz. rewrite Hread.
    by rewrite (proj2 (cstring_no_zero _ [] Hnz)).
Qed.

(** X17: [wipe] empties any SafeString: it reads as the empty string
    through [to_string] and through [c_str], and the next [+=] starts
    over from a buffer of [INITIAL_CAPACITY] bytes holding that one
    character. *)
Theorem SafeString_wipe_starts_over (ss : SafeString) (c : ascii) :
  to_string (SafeString_wipe ss) = EmptyString
  /\ SafeString_empty (SafeString_wipe ss) = true
  /\ c_str (SafeString_wipe ss) = [zero]
  /\ SafeString_inv (SafeString_wipe ss)
  /\ exists ss',
       SafeString_push_back uninit (SafeString_wipe ss) c = Ok ss'
       /\ to_string ss' = String c EmptyString
       /\ capacity_ (data ss') = INITIAL_CAPACITY.
Proof.
  split_and!; try done.
  eexists. split; [reflexivity|]. done.
Qed.

(** X18: [reserve] does not fail and changes neither the characters nor
    the length of a SafeString; afterwards the buffer has room for [n]
    characters and the trailer, unless [n + 1] wraps around.  It is the
    one operation that does not call [trail]: when the buffer had to
    grow, the byte behind the string is whatever the new array holds, so
    the NUL is gone until the next operation that appends, which puts it
    back. *)
Theorem SafeString_reserve_keeps_string (ss : SafeString) (n : Z) :
  SafeString_inv ss ->
  exists ss',
    SafeString_reserve uninit ss n = Ok ss'
    /\ to_string ss' = to_string ss
    /\ SafeString_length ss' = SafeString_length ss
    /\ (0 <= n < size_t_max -> n + 1 <= capacity_ (data ss'))
    /\ (buf_allocated (data ss) = true ->
        size_t (n + 1) <= capacity_ (data ss) -> ss' = ss)
    /\ (buf_allocated (data ss) = true ->
        capacity_ (data ss) < size_t (n + 1) ->
        data_ (data ss') !! Z.to_nat (offset_ (data ss') + size_ (data ss'))
        = new_array uninit 0 (size_t (n + 1)) (flags_ (data ss))
            !! Z.to_nat (offset_ (data ss) + size_ (data ss)))
    /\ (forall c, exists ss'',
           SafeString_push_back uninit ss' c = Ok ss''
           /\ SafeString_inv ss''
           /\ to_string ss''
              = (to_string ss +:+ String c EmptyString)%string).
Proof.
  intros Hinv. pose proof Hinv as (Ho & Hs & Hc & Hlen & Hgrow & Hnul).
  assert (Hwrap : 0 <= size_t (n + 1))
    by (unfold size_t; by apply Z.mod_pos_bound).
  assert (Hcap : 0 <= n < size_t_max -> size_t (n + 1) = n + 1).
  { intros Hn. unfold size_t. apply Z.mod_small.
    unfold size_t_max in Hn. lia. }
  assert (Hnext : forall b',
             buf_ok b' -> buf_content b' = buf_content (data ss) ->
             forall c, exists ss'',
               SafeString_push_back uninit (mkSafeString b') c = Ok ss''
               /\ SafeString_inv ss''
               /\ to_string ss''
                  = (to_string ss +:+ String c EmptyString)%string).
  { intros b' (Ho' & Hs' & Hc' & Hlen' & Hgrow') Hcont' c.
    unfold SafeString_push_back. cbn [data].
    destruct (alloc_fits b' Ho' Hs' Hc' Hlen' (fun _ => Hgrow'))
      as (Hok0 & Hs0 & Hcont0).
    destruct (buf_push_back_ok _ c Hok0)
      as (b1 & -> & Hok1 & Ho1 & Hs1 & Hcont1).
    destruct (trail_ok b1 Hok1)
      as (b2 & Hrun2 & Hok2 & Ho2 & Hs2 & Hc2 & Hcont2 & Hnul2).
    cbn. rewrite Hrun2. cbn. exists (mkSafeString b2).
    rewrite !to_string_content. cbn.
    split_and!; [done| by apply SafeString_inv_intro |].
    by rewrite Hcont2, Hcont1, Hcont0, Hcont', string_of_list_ascii_app. }
  unfold SafeString_reserve, buf_reserve.
  destruct (buf_allocated (data ss)) eqn:Halloc.
  - assert (Hok : buf_ok (data ss)) by (unfold buf_ok; by split_and!; auto).
    destruct (buf_resize_ok (data ss) (size_t (n + 1)) Hok)
      as (b1 & Hrun & Hok1 & Ho1 & Hs1 & Hc1 & Hcont1).
    rewrite Hrun. cbn. exists (mkSafeString b1).
    rewrite !to_string_content. unfold SafeString_length, buf_size. cbn.
    split_and!; try done.
    + by rewrite Hcont1.
    + intros Hn. rewrite Hc1, (Hcap Hn). lia.
    + intros _ Hfit. revert Hrun. unfold buf_resize.
      destruct (Z.leb_spec (size_t (n + 1)) (capacity_ (data ss)));
        [|lia]. intros [= <-]. by destruct ss.
    + intros _ Hgrows. revert Hrun. unfold buf_resize.
      destruct (Z.leb_spec (size_t (n + 1)) (capacity_ (data ss)));
        [lia|]. rewrite (Hgrow eq_refl). intros [= <-]. cbn.
      unfold memcpy.
      rewrite lookup_app_r by (rewrite length_take, length_new_array; lia).
      rewrite lookup_app_r by (rewrite !length_take, length_new_array,
                                 length_drop; lia).
      rewrite lookup_drop. f_equal.
      rewrite !length_take, length_new_array, length_drop. lia.
    + by apply Hnext.
  - destruct (buf_init_ok (size_t (n + 1)) Hwrap) as [Hok1 Hcont1].
    eexists. split; [reflexivity|].
    rewrite !to_string_content. unfold SafeString_length, buf_size. cbn.
    unfold buf_allocated in Halloc.
    assert (Hzero : size_ (data ss) = 0).
    { destruct (Z.eqb_spec (capacity_ (data ss)) 0); [lia|done]. }
    assert (Hempty : buf_content (data ss) = [])
      by (unfold buf_content; by rewrite Hzero).
    split_and!; try done.
    + by rewrite Hcont1, Hempty.
    + intros Hn. by rewrite (Hcap Hn).
    + apply Hnext; [done|]. by rewrite Hcont1, Hempty.
Qed.

(** X19: [length] counts the characters of [to_string], and [empty]
    holds exactly of the SafeStrings that read as the empty string. *)
Theorem SafeString_length_counts_characters (ss : SafeString) :
  SafeString_inv ss ->
  Z.of_nat (String.length (to_string ss)) = SafeString_length ss
  /\ (SafeString_empty ss = true <-> to_string ss = EmptyString).
Proof.
  intros (Ho & Hs & Hc & Hlen & _ & _).
  assert (Hcount : Z.of_nat (String.length (to_string ss))
                   = SafeString_length ss).
  { rewrite to_string_content, string_length_of_list_ascii.
    rewrite length_buf_content by done.
    unfold SafeString_length, buf_size. lia. }
  split; [done|]. unfold SafeString_empty. rewrite <- Hcount.
  destruct (to_string ss) as [|c s]; cbn; [done|].
  split; [|done]. intros Heq. apply Z.eqb_eq in Heq. lia.
Qed.
End SafeStringOps.

(** ** Concrete runs of the controller and of SafeString *)

Lemma store_referenced_while_connected_witness :
  let w := exec (tun_start demo_env [] transport)
                (new_world long_term_config) in
  reachable demo_env w
  /\ pump_running (client w) = true
  /\ halt (client w) = false.
Proof.
  intros w.
  assert (Hreach : reachable demo_env w)
    by apply reach_start, reach_new.
  split; [exact Hreach|]. split; [reflexivity|].
  destruct (store_referenced_while_connected demo_env w Hreach)
    as (_ & Hlive & _).
  exact (Hlive eq_refl).
Defined.

Lemma stop_after_fresh_start_witness :
  let w1 := exec (tun_start demo_env [] transport)
                 (mkWorld new_obj Client_ctor [] 0%nat []) in
  use_persisted_tun demo_env
    (start_store (mkWorld new_obj Client_ctor [] 0%nat []))
    server_addr (tun_prop new_obj) [] = Ok false
  /\ emitted stop w1
     = [pump_stop 0; persist_release; setup_destroyed LinuxSetup; fd_closed 5]
  /\ config (exec stop w1) = new_obj.
Proof.
  intros w1. split; [reflexivity|].
  exact (stop_after_fresh_start demo_env new_obj [] transport server_addr
           (mkState "" (IP.V4 "10.8.0.2") IP.UNSPEC server_addr IP.UNSPEC 0)
           demo_capture 5 "tun0" [] 0%nat []
           eq_refl eq_refl eq_refl eq_refl eq_refl).
Defined.

Lemma fresh_start_publishes_session_witness :
  let w := new_world long_term_config in
  let c' := client (exec (tun_start demo_env [] transport) w) in
  impl (client w) = None
  /\ use_persisted_tun demo_env (start_store w) server_addr
       (tun_prop (config w)) [] = Ok false
  /\ tun_name c' = "tun0"%string
  /\ vpn_ip4 c' = "10.8.0.2"%string
  /\ vpn_mtu c' = 1500.
Proof.
  intros w c'. split; [reflexivity|]. split; [reflexivity|].
  destruct (fresh_start_publishes_session demo_env w [] transport server_addr
              demo_state demo_capture 5 "tun0"
              eq_refl eq_refl eq_refl eq_refl eq_refl eq_refl)
    as (Hname & _ & Hip4 & _ & _ & _ & Hmtu & _).
  repeat split; assumption.
Defined.

Lemma failure_message_reaches_parent_witness :
  impl (client (new_world bad_config)) = None
  /\ establish demo_env (new_setup_obj bad_config) demo_capture
       (mkSetupConfig (layer (tun_prop bad_config)) (dev_name bad_config)
                      (txqueuelen bad_config) true)
     = Throw "cannot open tun"
  /\ last (emitted (tun_start demo_env [] transport) (new_world bad_config))
     = Some (tun_error TUN_SETUP_FAILED "cannot open tun").
Proof.
  split; [reflexivity|]. split; [reflexivity|].
  destruct (failure_message_reaches_parent demo_env (new_world bad_config) []
              transport "cannot open tun" eq_refl) as (_ & H).
  destruct (H server_addr eq_refl) as (_ & H1).
  destruct (H1 (mkState "" (IP.V4 "10.8.0.2") IP.UNSPEC server_addr
                        IP.UNSPEC 0) eq_refl) as (_ & H2).
  destruct (H2 demo_capture eq_refl) as (H3 & _).
  exact (H3 eq_refl).
Defined.

Lemma tun_send_after_stop_witness :
  let w := exec (tun_start demo_env [] transport) (new_world new_obj) in
  halt (client w) = false
  /\ tun_send demo_env packet (exec stop w) = (Ok false, exec stop w).
Proof.
  intros w. split; [reflexivity|].
  exact (tun_send_after_stop demo_env w packet eq_refl).
Defined.

Lemma push_update_keeps_long_term_device_witness :
  let w := exec (tun_start demo_env [] transport)
                (new_world long_term_config) in
  let w1 := exec (apply_push_update [] transport) w in
  let w2 := exec (run_n demo_env (length (io_context w1))) w1 in
  let ev := drop (length (trace w)) (trace w2) in
  tun_persist (client w) = Some LongTerm
  /\ Connected w2
  /\ count is_establish ev = 0%nat
  /\ count is_connected ev = 1%nat.
Proof.
  intros w w1 w2 ev. split; [reflexivity|].
  destruct (push_update_keeps_long_term_device demo_env w [] transport
              server_addr
              (mkTunPersist true NO_RETAIN None
                 (Some (mkPersisted 5 (set_iface_name demo_state "tun0")))
                 (Some LinuxSetup))
              (mkPersisted 5 (set_iface_name demo_state "tun0"))
              eq_refl eq_refl eq_refl eq_refl eq_refl eq_refl)
    as (Hconn & _ & _ & _ & _ & Hest & _ & _ & Hone).
  repeat split; assumption.
Defined.

Lemma push_update_reestablishes_short_term_device_witness :
  let w := exec (tun_start demo_env [] transport) (new_world new_obj) in
  let w1 := exec (apply_push_update [] transport) w in
  let w2 := exec (run_n demo_env (length (io_context w1))) w1 in
  let ev := drop (length (trace w)) (trace w2) in
  cfg_tun_persist (config w) = None
  /\ halt (client w) = false
  /\ Connected w2
  /\ count is_establish ev = 1%nat
  /\ count is_fd_closed ev = 1%nat.
Proof.
  intros w w1 w2 ev. split; [reflexivity|]. split; [reflexivity|].
  destruct (push_update_reestablishes_short_term_device demo_env w []
              transport server_addr
              (mkTunPersist true NO_RETAIN None
                 (Some (mkPersisted 5
                          (mkState "tun0" (IP.V4 "10.8.0.2") IP.UNSPEC
                                   server_addr IP.UNSPEC 0)))
                 (Some LinuxSetup))
              (mkState "tun0" (IP.V4 "10.8.0.2") IP.UNSPEC server_addr
                       IP.UNSPEC 0)
              demo_capture 5 "tun0"
              eq_refl eq_refl eq_refl eq_refl eq_refl eq_refl eq_refl eq_refl)
    as (Hconn & _ & _ & _ & Hest & _).
  split; [exact Hconn|]. split; [exact Hest | reflexivity].
Defined.

Lemma SafeString_inv_tun : SafeString_inv DemoStrings.tun.
Proof.
  unfold SafeString_inv, DemoStrings.tun. cbn.
  split; [lia|]. split; [lia|]. split; [lia|]. split; [reflexivity|].
  split; intros _; reflexivity.
Defined.

Lemma SafeString_inv_default : SafeString_inv SafeString_default.
Proof.
  unfold SafeString_inv, SafeString_default. cbn.
  split; [lia|]. split; [lia|]. split; [lia|]. split; [reflexivity|].
  split; intros H; discriminate H.
Defined.

Lemma SafeString_of_ptr_copies_size_bytes_witness :
  0 <= 2 < size_t_max
  /\ (Z.to_nat 2 <= length DemoStrings.tun0_and_more)%nat
  /\ exists ss,
       SafeString_of_ptr dots DemoStrings.tun0_and_more 2 = Ok ss
       /\ to_string ss = "tu"%string
       /\ capacity_ (data ss) = 3.
Proof.
  assert (H1 : 0 <= 2 < size_t_max) by (split; [lia | reflexivity]).
  assert (H2 : (Z.to_nat 2 <= length DemoStrings.tun0_and_more)%nat)
    by (cbn; lia).
  split; [exact H1|]. split; [exact H2|].
  destruct (SafeString_of_ptr_copies_size_bytes dots
              DemoStrings.tun0_and_more 2 H1 H2)
    as (_ & ss & Hrun & _ & Hstr & _ & Hcap & _).
  exists ss. repeat split; assumption.
Defined.

Lemma SafeString_of_cstr_round_trip_witness :
  Z.of_nat (length (list_ascii_of_string "tun0")) < size_t_max
  /\ exists ss,
       SafeString_of_cstr dots DemoStrings.tun0_and_more = Ok ss
       /\ to_string ss = "tun0"%string
       /\ cstring (c_str ss) = list_ascii_of_string "tun0".
Proof.
  split; [reflexivity|].
  destruct (SafeString_of_cstr_round_trip dots (list_ascii_of_string "tun0")
              (list_ascii_of_string "junk") eq_refl eq_refl)
    as (ss & Hrun & _ & Hstr & _ & Hc).
  exists ss. repeat split; assumption.
Defined.

Lemma SafeString_push_back_appends_witness :
  SafeString_inv SafeString_default
  /\ exists ss',
       SafeString_push_back dots SafeString_default "a" = Ok ss'
       /\ to_string ss' = "a"%string
       /\ SafeString_length ss' = 1.
Proof.
  split; [exact SafeString_inv_default|].
  destruct (SafeString_push_back_appends dots SafeString_default "a"
              SafeString_inv_default)
    as (ss' & Hrun & _ & Hstr & Hlen).
  exists ss'. repeat split; assumption.
Defined.

Lemma SafeString_append_concatenates_witness :
  SafeString_inv DemoStrings.tun
  /\ exists ss',
       SafeString_append dots DemoStrings.tun DemoStrings.tun = Ok ss'
       /\ to_string ss' = "tuntun"%string
       /\ SafeString_length ss' = 6.
Proof.
  split; [exact SafeString_inv_tun|].
  destruct (SafeString_append_concatenates dots DemoStrings.tun
              DemoStrings.tun SafeString_inv_tun SafeString_inv_tun)
    as (ss' & Hrun & _ & Hstr & Hlen).
  exists ss'. repeat split; assumption.
Defined.

Lemma SafeString_append_cstr_appends_witness :
  SafeString_inv DemoStrings.tun
  /\ exists ss',
       SafeString_append_cstr dots DemoStrings.tun DemoStrings.tun0_and_more
       = Ok ss'
       /\ to_string ss' = "tuntun0"%string
       /\ SafeString_length ss' = 7.
Proof.
  split; [exact SafeString_inv_tun|].
  destruct (SafeString_append_cstr_appends dots DemoStrings.tun
              DemoStrings.tun0_and_more SafeString_inv_tun)
    as (ss' & Hrun & _ & Hstr & Hlen).
  exists ss'. repeat split; assumption.
Defined.

Lemma c_str_reads_the_string_witness :
  SafeString_inv DemoStrings.tun
  /\ string_of_list_ascii (cstring (c_str DemoStrings.tun)) = "tun"%string
  /\ strlen (c_str DemoStrings.tun) <= 3.
Proof.
  split; [exact SafeString_inv_tun|].
  destruct (c_str_reads_the_string DemoStrings.tun SafeString_inv_tun)
    as (Hlen & _ & Hstr).
  split; [exact (Hstr eq_refl) | exact Hlen].
Defined.

Lemma SafeString_reserve_keeps_string_witness :
  SafeString_inv DemoStrings.tun
  /\ exists ss',
       SafeString_reserve dots DemoStrings.tun 10 = Ok ss'
       /\ to_string ss' = "tun"%string
       /\ 10 + 1 <= capacity_ (data ss')
       /\ strlen (c_str ss') = 11.
Proof.
  split; [exact SafeString_inv_tun|].
  destruct (SafeString_reserve_keeps_string dots DemoStrings.tun 10
              SafeString_inv_tun)
    as (ss' & Hrun & Hstr & _ & Hcap & _).
  exists ss'. split; [exact Hrun|]. split; [exact Hstr|].
  split; [apply Hcap; split; [lia | reflexivity]|].
  vm_compute in Hrun. injection Hrun as <-. reflexivity.
Defined.

Lemma SafeString_length_counts_characters_witness :
  SafeString_inv DemoStrings.tun
  /\ Z.of_nat (String.length (to_string DemoStrings.tun))
     = SafeString_length DemoStrings.tun.
Proof.
  split; [exact SafeString_inv_tun|].
  exact (proj1 (SafeString_length_counts_characters DemoStrings.tun
                  SafeString_inv_tun)).
Defined.
